(** * gtsam/linear/VectorValues.h: the segmented vector of a factor-graph solver

    A shallow embedding of class [gtsam::VectorValues]: one flat [Vector] of
    doubles ([values_]) cut into per-variable blocks by a table of offsets
    ([varStarts_]), with its constructors, [reserve] /
    [push_back_preallocated], block access, the iterator and the
    whole-buffer kernels, followed by the properties checked against it.

    Conventions of the embedding.
    - [size_t], [Index] (a [size_t]) and [ptrdiff_t] are 64 bits wide; they
      are integers of [Z] and every arithmetic step of the source is
      followed by its reduction modulo [2^64] ([wrap]).
    - [double] is the binary64 float of the kernel ([PrimFloat.float]).
    - [assert], the checks of a checked uBLAS build and [throw] are errors:
      a [const] member returns a [result], a mutating member runs in the
      monad [M], which keeps the state reached when the error was raised.
    - Allocation never fails. *)

From Stdlib Require Import ZArith Lia Floats String.
From stdpp Require Import base list.

Module gtsam.

Local Open Scope Z_scope.

(** ** Machine integers *)

Abbreviation size_t := Z (only parsing).
Abbreviation Index := Z (only parsing).
Abbreviation ptrdiff_t := Z (only parsing).

Definition SIZE_MOD : Z := 2 ^ 64.

(** Unsigned 64-bit wrap-around. *)
Definition wrap (x : Z) : size_t := x mod SIZE_MOD.

(** The values of a [size_t]. *)
Definition in_size_t (x : Z) : Prop := 0 <= x < SIZE_MOD.

(** ** Errors *)

Inductive error : Type :=
| assertion_failed (what : string)   (* assert(...) of the source *)
| bad_index                          (* range / index check of checked uBLAS *)
| bad_size                           (* size mismatch of two vector operands *)
| runtime_error (msg : string).      (* throw std::runtime_error(msg) *)

Inductive result (A : Type) : Type :=
| Ok (a : A)
| Err (e : error).
Arguments Ok {A} a.
Arguments Err {A} e.

Definition rbind {A B} (r : result A) (k : A -> result B) : result B :=
  match r with
  | Ok a => k a
  | Err e => Err e
  end.

(** ** Vector (gtsam/base/Vector.h: a uBLAS vector of double) *)

Abbreviation Vector := (list float) (only parsing).

(** [Vector::size()]. *)
Definition vsize (v : Vector) : size_t := Z.of_nat (length v).

(** [boost::numeric::ublas::range(start, stop)]: a start and a size. *)
Record range : Type := { start_ : size_t; size_ : size_t }.

(** Reading a [vector_range]: the elements [start_ .. start_ + size_) of the
    vector it refers to. *)
Definition range_read (data : Vector) (r : range) : Vector :=
  take (Z.to_nat (size_ r)) (drop (Z.to_nat (start_ r)) data).

(** Assigning a vector to a [vector_range] of [data]: the operands must
    have the same size; the elements of the range are overwritten in place. *)
Definition range_assign (data : Vector) (r : range) (v : Vector) : result Vector :=
  if vsize v =? size_ r
  then Ok (take (Z.to_nat (start_ r)) data ++ v
           ++ drop (Z.to_nat (start_ r + size_ r)) data)
  else Err bad_size.

(** [project(data, range(start, stop))]: the view of [data] between two
    offsets.  A checked build refuses a range that does not lie inside
    [data]. *)
Definition project (data : Vector) (start stop : size_t) : result range :=
  if (start <=? stop) && (stop <=? vsize data)
  then Ok {| start_ := start; size_ := stop - start |}
  else Err bad_index.

(** Contents of freshly allocated, uninitialised storage: [uninit i] is
    whatever the memory holds at position [i].  Nothing below depends on
    it. *)
Definition garbage := nat -> float.

(** [v.resize(n, false)]: [n] elements, old contents not preserved. *)
Definition resize_discard (uninit : garbage) (n : size_t) : Vector :=
  map uninit (seq 0 (Z.to_nat n)).

(** [v.resize(n)] ([preserve = true]): the first [min n (size v)] elements
    are kept, new elements are value-initialised ([0.0]). *)
Definition resize_preserve (v : Vector) (n : size_t) : Vector :=
  take (Z.to_nat n) v ++ replicate (Z.to_nat n - length v)%nat 0%float.

(** ** VectorValues *)

Record VectorValues : Type := {
  values_ : Vector;
  varStarts_ : list size_t
}.

(** [varStarts_.back()]; the class never holds an empty [varStarts_]. *)
Definition back (l : list size_t) : size_t := List.last l 0.

(** [Index size() const { return varStarts_.size()-1; }] *)
Definition size (v : VectorValues) : Index :=
  wrap (Z.of_nat (length (varStarts_ v)) - 1).

(** [size_t dim() const { return varStarts_.back(); }] *)
Definition dim (v : VectorValues) : size_t := back (varStarts_ v).

(** [size_t dimCapacity() const { return values_.size(); }] *)
Definition dimCapacity (v : VectorValues) : size_t := vsize (values_ v).

(** *** Constructors *)

(** [VectorValues() : varStarts_(1,0) {}] *)
Definition VectorValues_default : VectorValues :=
  {| values_ := []; varStarts_ := [0] |}.

(** [VectorValues(const VectorValues &V)] *)
Definition VectorValues_copy (V : VectorValues) : VectorValues :=
  {| values_ := values_ V; varStarts_ := varStarts_ V |}.

(** The loop shared by the constructors that read a container:
<<
  BOOST_FOREACH(size_t dim, dimensions) { varStarts_[++var] = (varStart += dim); }
>>
    [l[j] = x] on a [std::vector] is an in-place update; the index is
    always inside the vector here. *)
Fixpoint fill_varStarts (dimensions : list size_t) (var : Index)
    (varStart : size_t) (starts : list size_t) : list size_t :=
  match dimensions with
  | [] => starts
  | d :: rest =>
      let varStart' := wrap (varStart + d) in
      let var' := wrap (var + 1) in
      fill_varStarts rest var' varStart' (<[Z.to_nat var' := varStart']> starts)
  end.

(** [varStarts_(n)] then [varStarts_[0] = 0]: [n] zeros, the first one
    written again. *)
Definition init_varStarts (n : size_t) : list size_t :=
  <[0%nat := 0]> (replicate (Z.to_nat n) 0).

(** [template<class Container> VectorValues(const Container& dimensions)] *)
Definition VectorValues_dims (uninit : garbage) (dimensions : list size_t)
    : VectorValues :=
  let starts :=
    fill_varStarts dimensions 0 0
      (init_varStarts (wrap (Z.of_nat (length dimensions) + 1))) in
  {| values_ := resize_discard uninit (back starts); varStarts_ := starts |}.

(** The loop of the uniform constructor, [count] iterations from [j]:
<<
  for(Index j=1; j<=nVars; ++j) varStarts_[j] = (varStart += varDim);
>> *)
Fixpoint fill_uniform (count : nat) (j : Index) (varDim varStart : size_t)
    (starts : list size_t) : list size_t :=
  match count with
  | O => starts
  | S count' =>
      let varStart' := wrap (varStart + varDim) in
      fill_uniform count' (wrap (j + 1)) varDim varStart'
        (<[Z.to_nat j := varStart']> starts)
  end.

(** [VectorValues(Index nVars, size_t varDim)].  The loop runs [nVars]
    times for every [nVars] below [2^64 - 1]; at [2^64 - 1] the source
    indexes an empty [varStarts_] and is undefined. *)
Definition VectorValues_uniform (uninit : garbage) (nVars : Index)
    (varDim : size_t) : VectorValues :=
  let starts :=
    fill_uniform (Z.to_nat nVars) 1 varDim 0 (init_varStarts (wrap (nVars + 1))) in
  {| values_ := resize_discard uninit (back starts); varStarts_ := starts |}.

(** [VectorValues(const std::vector<size_t>& dimensions, const Vector& values)] *)
Definition VectorValues_values (dimensions : list size_t) (values : Vector)
    : result VectorValues :=
  let starts :=
    fill_varStarts dimensions 0 0
      (init_varStarts (wrap (Z.of_nat (length dimensions) + 1))) in
  if back starts =? vsize values
  then Ok {| values_ := values; varStarts_ := starts |}
  else Err (assertion_failed "varStarts_.back() == values.size()").

(** [static VectorValues SameStructure(const VectorValues& otherValues)] *)
Definition SameStructure (uninit : garbage) (otherValues : VectorValues)
    : VectorValues :=
  {| values_ := resize_discard uninit (back (varStarts_ otherValues));
     varStarts_ := varStarts_ otherValues |}.

(** *** Block access *)

(** [varStarts_[i]]; the index is inside the vector wherever the source
    evaluates it after [checkVariable]. *)
Definition at_ (l : list size_t) (i : Index) : size_t :=
  default 0 (l !! Z.to_nat i).

(** [void checkVariable(Index variable) const
      { assert(variable < varStarts_.size()-1); }] *)
Definition checkVariable (v : VectorValues) (variable : Index) : result unit :=
  if variable <? wrap (Z.of_nat (length (varStarts_ v)) - 1)
  then Ok tt
  else Err (assertion_failed "variable < varStarts_.size()-1").

(** [operator[](Index variable)], both overloads: the view
    [project(values_, range(varStarts_[variable], varStarts_[variable+1]))]. *)
Definition operator_index (v : VectorValues) (variable : Index) : result range :=
  rbind (checkVariable v variable) (fun _ =>
  project (values_ v) (at_ (varStarts_ v) variable)
                      (at_ (varStarts_ v) (wrap (variable + 1)))).

(** The elements seen through [v[variable]]. *)
Definition block (v : VectorValues) (variable : Index) : result Vector :=
  rbind (operator_index v variable) (fun r => Ok (range_read (values_ v) r)).

(** ** Mutating members: state and error *)

(** A member function that may change [*this]: the result, or the error
    raised, together with the state reached at that point. *)
Definition M (A : Type) : Type := VectorValues -> result A * VectorValues.

Definition ret {A} (a : A) : M A := fun v => (Ok a, v).

Definition bind {A B} (m : M A) (k : A -> M B) : M B :=
  fun v => match m v with
           | (Ok a, v') => k a v'
           | (Err e, v') => (Err e, v')
           end.

Definition get : M VectorValues := fun v => (Ok v, v).
Definition put (v : VectorValues) : M unit := fun _ => (Ok tt, v).
Definition lift {A} (r : result A) : M A := fun v => (r, v).

Notation "'do' x <- m ; k" := (bind m (fun x => k))
  (at level 10, x name, m at level 100, k at level 200).
Notation "'run' m ; k" := (bind m (fun _ => k))
  (at level 10, m at level 100, k at level 200).

(** [this->operator[](variable) = vector;] *)
Definition assign_block (variable : Index) (vector : Vector) : M unit :=
  do v <- get;
  do r <- lift (operator_index v variable);
  do data <- lift (range_assign (values_ v) r vector);
  put {| values_ := data; varStarts_ := varStarts_ v |}.

(** [void reserve(Index nVars, size_t totalDims)]:
    [values_.resize(std::max(totalDims, values_.size()));
     varStarts_.reserve(nVars+1);]
    Reserving room in a [std::vector] changes its capacity only, which
    no member observes. *)
Definition reserve (nVars : Index) (totalDims : size_t) : M unit :=
  do v <- get;
  put {| values_ := resize_preserve (values_ v) (Z.max totalDims (vsize (values_ v)));
         varStarts_ := varStarts_ v |}.

(** [Index push_back_preallocated(const Vector& vector)] *)
Definition push_back_preallocated (vector : Vector) : M Index :=
  do v <- get;
  let var := wrap (Z.of_nat (length (varStarts_ v)) - 1) in
  run put {| values_ := values_ v;
             varStarts_ := varStarts_ v ++ [wrap (back (varStarts_ v) + vsize vector)] |};
  run assign_block var vector;
  ret var.

(** [void makeZero()]: [values_] is overwritten by a zero vector of its
    own size. *)
Definition makeZero : M unit :=
  do v <- get;
  put {| values_ := replicate (length (values_ v)) 0%float;
         varStarts_ := varStarts_ v |}.

(** ** Kernels on flat vectors (gtsam/base/Vector.h) *)

(** The inner product of two flat vectors, summed from the first entry
    on. *)
Definition inner_prod (a b : Vector) : float :=
  fold_left (fun acc p => (acc + fst p * snd p)%float) (zip a b) 0%float.

(** Modelled from the spec: [gtsam::dot(const Vector&, const Vector&)] is
    declared in gtsam/base/Vector.h, which is not among the sources.  The
    spec calls it the inner product; it needs operands of one size. *)
Definition Vector_dot (a b : Vector) : result float :=
  if vsize a =? vsize b then Ok (inner_prod a b) else Err bad_size.

(** Modelled from the spec: [gtsam::scal(double, Vector&)] of
    gtsam/base/Vector.h: in-place multiplication of every entry by
    [alpha]. *)
Definition Vector_scal (alpha : float) (x : Vector) : Vector :=
  map (fun xi => (alpha * xi)%float) x.

(** Modelled from the spec: [gtsam::axpy(double, const Vector&, Vector&)]
    of gtsam/base/Vector.h: in-place [y += alpha * x], on operands of one
    size. *)
Definition Vector_axpy (alpha : float) (x y : Vector) : result Vector :=
  if vsize x =? vsize y
  then Ok (zip_with (fun xi yi => (yi + alpha * xi)%float) x y)
  else Err bad_size.

(** Element-wise sum of two uBLAS vector expressions, which a checked
    build refuses on operands of different sizes. *)
Definition Vector_add (a b : Vector) : result Vector :=
  if vsize a =? vsize b
  then Ok (zip_with (fun ai bi => (ai + bi)%float) a b)
  else Err bad_size.

(** Two entries mismatch when their difference exceeds [tol] in absolute
    value. *)
Definition mismatch (tol a b : float) : bool := (tol <? abs (a - b))%float.

(** Modelled from the spec: [equal_with_abs_tol(const Vector&, const
    Vector&, double)] is declared in gtsam/base/Vector.h, which is not
    among the sources.  The spec calls it an absolute-tolerance float
    comparison of two blocks that is false on the first mismatch: blocks
    of one size without a mismatching entry pair are equal. *)
Definition equal_with_abs_tol (vec1 vec2 : Vector) (tol : float) : bool :=
  (vsize vec1 =? vsize vec2)
  && forallb (fun p => negb (mismatch tol (fst p) (snd p))) (zip vec1 vec2).

(** *** Whole-buffer operations of VectorValues *)

(** [double dot(const VectorValues& V) const] and the friend
    [dot(const VectorValues& V1, const VectorValues& V2)]:
    [return gtsam::dot(V1.values_, V2.values_);] *)
Definition dot (V1 V2 : VectorValues) : result float :=
  Vector_dot (values_ V1) (values_ V2).

(** [friend void scal(double alpha, VectorValues& x)] *)
Definition scal (alpha : float) : M unit :=
  do x <- get;
  put {| values_ := Vector_scal alpha (values_ x); varStarts_ := varStarts_ x |}.

(** [friend void axpy(double alpha, const VectorValues& x, VectorValues& y)],
    as a member of [y]. *)
Definition axpy (alpha : float) (x : VectorValues) : M unit :=
  do y <- get;
  do data <- lift (Vector_axpy alpha (values_ x) (values_ y));
  put {| values_ := data; varStarts_ := varStarts_ y |}.

(** [VectorValues operator+(const VectorValues& c) const] *)
Definition operator_plus (this c : VectorValues) : result VectorValues :=
  if bool_decide (varStarts_ this = varStarts_ c)
  then
    rbind (project (values_ this) 0 (back (varStarts_ this))) (fun r1 =>
    rbind (project (values_ c) 0 (back (varStarts_ c))) (fun r2 =>
    rbind (Vector_add (range_read (values_ this) r1) (range_read (values_ c) r2))
      (fun sum => Ok {| values_ := sum; varStarts_ := varStarts_ this |})))
  else Err (assertion_failed "varStarts_ == c.varStarts_").

(** The loop of [equals], [count] iterations from [var]:
<<
  for(Index var=0; var<size(); ++var)
    if(!equal_with_abs_tol(expected[var],operator[](var),tol)) return false;
  return true;
>> *)
Fixpoint equals_loop (count : nat) (var : Index) (this expected : VectorValues)
    (tol : float) : result bool :=
  match count with
  | O => Ok true
  | S count' =>
      rbind (block expected var) (fun e =>
      rbind (block this var) (fun t =>
      if equal_with_abs_tol e t tol
      then equals_loop count' (wrap (var + 1)) this expected tol
      else Ok false))
  end.

(** [bool equals(const VectorValues& expected, double tol=1e-9) const] *)
Definition equals (this expected : VectorValues) (tol : float) : result bool :=
  if size this =? size expected
  then equals_loop (Z.to_nat (size this)) 0 this expected tol
  else Ok false.

(** ** Iterator *)

(** An iterator keeps a reference to its container ([C& config_]): the
    address of the container in a memory of containers. *)
Definition address := nat.
Definition memory := address -> VectorValues.

Record _impl_iterator : Type := {
  config_ : address;
  curVariable_ : Index
}.

(** A member function of the iterator: result or error, and the iterator
    as the call leaves it. *)
Definition It (A : Type) : Type := _impl_iterator -> result A * _impl_iterator.

(** [begin()] and [end()] of the container at address [a]. *)
Definition begin_ (a : address) : _impl_iterator :=
  {| config_ := a; curVariable_ := 0 |}.

Definition end_ (mem : memory) (a : address) : _impl_iterator :=
  {| config_ := a;
     curVariable_ := wrap (Z.of_nat (length (varStarts_ (mem a))) - 1) |}.

(** [operator++() { ++curVariable_; return *this; }] *)
Definition prefix_incr : It unit :=
  fun it => (Ok tt, {| config_ := config_ it;
                       curVariable_ := wrap (curVariable_ it + 1) |}).

(** [operator--() { --curVariable_; return *this; }] *)
Definition prefix_decr : It unit :=
  fun it => (Ok tt, {| config_ := config_ it;
                       curVariable_ := wrap (curVariable_ it - 1) |}).

(** [operator++(int) { throw std::runtime_error("Use prefix ++ operator"); }] *)
Definition postfix_incr : It unit :=
  fun it => (Err (runtime_error "Use prefix ++ operator"), it).

(** [operator--(int) { throw std::runtime_error("Use prefix -- operator"); }] *)
Definition postfix_decr : It unit :=
  fun it => (Err (runtime_error "Use prefix -- operator"), it).

(** [operator+=(ptrdiff_t step) { curVariable_ += step; return *this; }]:
    [step] is converted to [size_t] and added modulo [2^64]. *)
Definition plus_assign (step : ptrdiff_t) : It unit :=
  fun it => (Ok tt, {| config_ := config_ it;
                       curVariable_ := wrap (curVariable_ it + wrap step) |}).

(** [operator-=(ptrdiff_t step) { curVariable_ += step; return *this; }] *)
Definition minus_assign (step : ptrdiff_t) : It unit :=
  fun it => (Ok tt, {| config_ := config_ it;
                       curVariable_ := wrap (curVariable_ it + wrap step) |}).

(** [void checkCompat(const _impl_iterator<C>& r)
      { assert(&config_ == &r.config_); }] *)
Definition checkCompat (it r : _impl_iterator) : result unit :=
  if Nat.eqb (config_ it) (config_ r) then Ok tt
  else Err (assertion_failed "&config_ == &r.config_").

(** Conversion of a [size_t] to [ptrdiff_t] (two's complement). *)
Definition to_ptrdiff (x : size_t) : ptrdiff_t :=
  if x <? 2 ^ 63 then x else x - SIZE_MOD.

(** [ptrdiff_t operator-(const _impl_iterator<C>& r)] *)
Definition iterator_diff (it r : _impl_iterator) : result ptrdiff_t :=
  rbind (checkCompat it r) (fun _ =>
  Ok (to_ptrdiff (wrap (curVariable_ it - curVariable_ r)))).

(** [bool operator==(const _impl_iterator<C>& r)] *)
Definition iterator_eq (it r : _impl_iterator) : result bool :=
  rbind (checkCompat it r) (fun _ => Ok (curVariable_ it =? curVariable_ r)).

(** [bool operator!=(const _impl_iterator<C>& r)] *)
Definition iterator_ne (it r : _impl_iterator) : result bool :=
  rbind (checkCompat it r) (fun _ => Ok (negb (curVariable_ it =? curVariable_ r))).

(** [value_type operator*() { return config_[curVariable_]; }] *)
Definition deref (mem : memory) (it : _impl_iterator) : result range :=
  operator_index (mem (config_ it)) (curVariable_ it).

(** [n] times [++it]. *)
Definition advance (n : nat) (it : _impl_iterator) : _impl_iterator :=
  Nat.iter n (fun it' => snd (prefix_incr it')) it.

(** ** The public interface as a transition system *)

(** A call of a mutating member. *)
Inductive call : Type :=
| call_reserve (nVars : Index) (totalDims : size_t)
| call_push_back_preallocated (vector : Vector)
| call_assign (variable : Index) (vector : Vector)
| call_makeZero
| call_scal (alpha : float)
| call_axpy (alpha : float) (x : VectorValues).

Definition exec (c : call) : M unit :=
  match c with
  | call_reserve nVars totalDims => reserve nVars totalDims
  | call_push_back_preallocated vector =>
      run push_back_preallocated vector; ret tt
  | call_assign variable vector => assign_block variable vector
  | call_makeZero => makeZero
  | call_scal alpha => scal alpha
  | call_axpy alpha x => axpy alpha x
  end.

(** The arguments of a call are values of their C++ types: a [size_t] lies
    in [0, 2^64) and so does the size of a [Vector]. *)
Definition call_typed (c : call) : Prop :=
  match c with
  | call_reserve nVars totalDims => in_size_t nVars /\ in_size_t totalDims
  | call_push_back_preallocated vector => in_size_t (vsize vector)
  | call_assign variable vector => in_size_t variable /\ in_size_t (vsize vector)
  | call_makeZero | call_scal _ | call_axpy _ _ => True
  end.

(** ** Vocabulary of the properties *)

(** Sum of a dimension list. *)
Definition total (D : list size_t) : Z := foldr Z.add 0 D.

(** Running sums of [D] from [acc], exact and as the 64-bit sources
    compute them. *)
Fixpoint running_sum (acc : Z) (D : list size_t) : list Z :=
  match D with
  | [] => []
  | d :: rest => (acc + d) :: running_sum (acc + d) rest
  end.

Fixpoint running_sum_wrap (acc : size_t) (D : list size_t) : list size_t :=
  match D with
  | [] => []
  | d :: rest => wrap (acc + d) :: running_sum_wrap (wrap (acc + d)) rest
  end.

(** A dimension list the constructors are meant for: a container of
    [size_t] whose entries add up to a [size_t], short enough for
    [dimensions.size()+1] to be one too. *)
Definition valid_dims (D : list size_t) : Prop :=
  Forall (fun d => 0 <= d) D
  /\ total D < SIZE_MOD
  /\ Z.of_nat (length D) + 1 < SIZE_MOD.

(** A non-decreasing list. *)
Fixpoint nondecreasing (l : list Z) : Prop :=
  match l with
  | a :: (b :: _) as rest => a <= b /\ nondecreasing rest
  | _ => True
  end.

(** The invariant of the data model. *)
Record Inv (v : VectorValues) : Prop := {
  Inv_first : head (varStarts_ v) = Some 0;
  Inv_nondecreasing : nondecreasing (varStarts_ v);
  Inv_dim : dim v <= dimCapacity v
}.

(** Both vectors of a container hold fewer than [2^64] entries, as every
    [std::vector] and uBLAS vector does. *)
Definition representable (v : VectorValues) : Prop :=
  Z.of_nat (length (varStarts_ v)) < SIZE_MOD /\ dimCapacity v < SIZE_MOD.

(** What the calls of the interface keep besides [Inv]: the sizes that a
    [size_t] must hold. *)
Definition bounded (v : VectorValues) : Prop :=
  Z.of_nat (length (varStarts_ v)) <= SIZE_MOD /\ dimCapacity v < SIZE_MOD.

(** The used part of the storage, [[0, dim())]. *)
Definition used (v : VectorValues) : Vector :=
  take (Z.to_nat (dim v)) (values_ v).

(** The state in which [push_back_preallocated] writes the block: the new
    boundary is already in the table. *)
Definition pushed (vector : Vector) (v : VectorValues) : VectorValues :=
  {| values_ := values_ v;
     varStarts_ := varStarts_ v ++ [wrap (dim v + vsize vector)] |}.

(** The containers a program can build through the public interface, by
    calls that return normally. *)
Inductive reachable : VectorValues -> Prop :=
| reach_default : reachable VectorValues_default
| reach_dims uninit D :
    valid_dims D -> reachable (VectorValues_dims uninit D)
| reach_uniform uninit nVars varDim :
    0 <= nVars -> 0 <= varDim -> nVars + 1 < SIZE_MOD ->
    nVars * varDim < SIZE_MOD ->
    reachable (VectorValues_uniform uninit nVars varDim)
| reach_values D values v :
    valid_dims D -> VectorValues_values D values = Ok v -> reachable v
| reach_copy V : reachable V -> reachable (VectorValues_copy V)
| reach_SameStructure uninit V :
    reachable V -> reachable (SameStructure uninit V)
| reach_plus a c r :
    reachable a -> reachable c -> operator_plus a c = Ok r -> reachable r
| reach_call c v v' :
    reachable v -> call_typed c -> exec c v = (Ok tt, v') -> reachable v'.

(** ** Sample containers *)

Definition no_garbage : garbage := fun _ => 0%float.

(** What the constructor builds from dimensions [[2; 3]] and values
    [[1,2, 3,4,5]]. *)
Definition sample_23 : VectorValues :=
  {| values_ := [1; 2; 3; 4; 5]%float; varStarts_ := [0; 2; 5] |}.

(** [reserve(3, 10)] on an empty container. *)
Definition reserved_3_10 : VectorValues :=
  snd (reserve 3 10 VectorValues_default).

(** [reserve(1, 3)] then one block [[1, 2]]: one slack entry. *)
Definition slack_a : VectorValues :=
  snd ((run reserve 1 3; push_back_preallocated [1; 2]%float) VectorValues_default).

(** [reserve(2, 3)] then blocks [[1, 1]] and [[5]]: no slack. *)
Definition full_x : VectorValues :=
  snd ((run reserve 2 3; run push_back_preallocated [1; 1]%float;
        push_back_preallocated [5]%float) VectorValues_default).

(** [slack_a] after [axpy(1.0, full_x, slack_a)]: the slack entry holds 5. *)
Definition slack_b : VectorValues :=
  snd (axpy 1 full_x slack_a).

(** What the constructor builds from dimensions [[2]] and values
    [[1, 1]]: one block in storage of exactly two entries. *)
Definition tight : VectorValues :=
  {| values_ := [1; 1]%float; varStarts_ := [0; 2] |}.

(** ** More vocabulary on containers *)

(** The slices a table of offsets cuts out of a storage, in order. *)
Fixpoint slices (starts : list size_t) (data : Vector) : list (list float) :=
  match starts with
  | a :: (b :: _) as rest =>
      range_read data {| start_ := a; size_ := b - a |} :: slices rest data
  | _ => []
  end.

(** A sequence of appends, as a caller runs them after [reserve]: the
    indices returned, in order. *)
Fixpoint push_back_all (blocks : list (list float)) : M (list Z) :=
  match blocks with
  | [] => ret []
  | b :: rest =>
      do i <- push_back_preallocated b;
      do others <- push_back_all rest;
      ret (i :: others)
  end.

(** The indices [first], [first + 1], ... of [count] blocks. *)
Definition indices (first : Index) (count : nat) : list Z :=
  map (fun k => first + Z.of_nat k) (seq 0 count).

(** * gtsam/geometry/Point2.h: a point of the plane

    The class keeps two doubles.  Its members that are defined in the
    header are embedded below; [print], [equals] and [norm] are only
    declared there, and [unit] and [dist], which call [norm], are left
    out with them. *)

(** [Matrix] (gtsam/base/Matrix.h: a uBLAS matrix of double), by rows. *)
Abbreviation Matrix := (list (list float)) (only parsing).

(** Modelled from the spec: [eye(n)] is declared in gtsam/base/Matrix.h,
    which is not among the sources (the spec leaves all matrix code out):
    the [n] by [n] identity matrix. *)
Definition eye (n : size_t) : Matrix :=
  map (fun i => map (fun j => if Nat.eqb i j then 1%float else 0%float)
                    (seq 0 (Z.to_nat n)))
      (seq 0 (Z.to_nat n)).

(** Unary minus of a uBLAS matrix expression. *)
Definition Matrix_opp (m : Matrix) : Matrix := map (map PrimFloat.opp) m.

(** Modelled from the spec: [Vector_(m, ...)] is declared in
    gtsam/base/Vector.h, which is not among the sources: the flat numeric
    block of the [m] numbers listed. *)
Definition Vector_ (m : size_t) (entries : list float) : Vector :=
  take (Z.to_nat m) entries.

(** [v(i)] on a uBLAS vector: a checked build refuses an index that is not
    below the size. *)
Definition Vector_at (v : Vector) (i : size_t) : result float :=
  match v !! Z.to_nat i with
  | Some a => Ok a
  | None => Err bad_index
  end.

(** An optional output [boost::optional<Matrix&> H], written when it is
    supplied: [if(H) *H = m;]. *)
Definition write_optional (H : option Matrix) (m : Matrix) : option Matrix :=
  match H with
  | Some _ => Some m
  | None => None
  end.

Record Point2 : Type := { x_ : float; y_ : float }.

Module Point2.

(** [static const size_t dimension = 2;] *)
Definition dimension : size_t := 2.

(** [Point2(): x_(0), y_(0) {}] *)
Definition Point2_default : Point2 := {| x_ := 0; y_ := 0 |}.

(** [Point2(const Point2 &p) : x_(p.x_), y_(p.y_) {}] *)
Definition Point2_copy (p : Point2) : Point2 := {| x_ := x_ p; y_ := y_ p |}.

(** [Point2(double x, double y): x_(x), y_(y) {}] *)
Definition Point2_xy (x y : float) : Point2 := {| x_ := x; y_ := y |}.

(** [Point2(const Vector& v) : x_(v(0)), y_(v(1)) { assert(v.size() == 2); }] *)
Definition Point2_Vector (v : Vector) : result Point2 :=
  rbind (Vector_at v 0) (fun x =>
  rbind (Vector_at v 1) (fun y =>
  if vsize v =? 2
  then Ok {| x_ := x; y_ := y |}
  else Err (assertion_failed "v.size() == 2"))).

(** [inline static Point2 identity() { return Point2(); }] *)
Definition identity : Point2 := Point2_default.

(** [inline Point2 inverse() const { return Point2(-x_, -y_); }] *)
Definition inverse (p : Point2) : Point2 := Point2_xy (- x_ p) (- y_ p).

(** [inline Point2 operator- () const {return Point2(-x_,-y_);}] *)
Definition operator_neg (p : Point2) : Point2 := Point2_xy (- x_ p) (- y_ p).

(** [inline Point2 operator + (const Point2& q) const
      {return Point2(x_+q.x_,y_+q.y_);}] *)
Definition operator_plus (p q : Point2) : Point2 :=
  Point2_xy (x_ p + x_ q) (y_ p + y_ q).

(** [inline Point2 operator - (const Point2& q) const
      {return Point2(x_-q.x_,y_-q.y_);}] *)
Definition operator_minus (p q : Point2) : Point2 :=
  Point2_xy (x_ p - x_ q) (y_ p - y_ q).

(** [inline Point2 operator * (double s) const {return Point2(x_*s,y_*s);}] *)
Definition operator_times (p : Point2) (s : float) : Point2 :=
  Point2_xy (x_ p * s) (y_ p * s).

(** [inline Point2 operator / (double q) const {return Point2(x_/q,y_/q);}] *)
Definition operator_div (p : Point2) (q : float) : Point2 :=
  Point2_xy (x_ p / q) (y_ p / q).

(** [compose(p2, H1, H2)]:
<<
  if(H1) *H1 = eye(2);
  if(H2) *H2 = eye(2);
  return *this + p2;
>>
    The point returned, and the optional outputs as the call leaves
    them. *)
Definition compose (p p2 : Point2) (H1 H2 : option Matrix)
    : Point2 * option Matrix * option Matrix :=
  (operator_plus p p2, write_optional H1 (eye 2), write_optional H2 (eye 2)).

(** [between(p2, H1, H2)]:
<<
  if(H1) *H1 = -eye(2);
  if(H2) *H2 = eye(2);
  return p2 - ( *this );
>> *)
Definition between (p p2 : Point2) (H1 H2 : option Matrix)
    : Point2 * option Matrix * option Matrix :=
  (operator_minus p2 p, write_optional H1 (Matrix_opp (eye 2)),
   write_optional H2 (eye 2)).

(** [inline static size_t Dim() { return dimension; }] *)
Definition Dim : size_t := dimension.

(** [inline size_t dim() const { return dimension; }] *)
Definition dim (p : Point2) : size_t := dimension.

(** [static inline Point2 Expmap(const Vector& v) { return Point2(v); }] *)
Definition Expmap (v : Vector) : result Point2 := Point2_Vector v.

(** [static inline Vector Logmap(const Point2& dp)
      { return Vector_(2, dp.x(), dp.y()); }] *)
Definition Logmap (dp : Point2) : Vector := Vector_ 2 [x_ dp; y_ dp].

(** [inline Point2 retract(const Vector& v) const
      { return *this + Point2(v); }] *)
Definition retract (p : Point2) (v : Vector) : result Point2 :=
  rbind (Point2_Vector v) (fun q => Ok (operator_plus p q)).

(** [inline Vector localCoordinates(const Point2& t2) const
      { return Logmap(between(t2)); }], the optional outputs of [between]
    left at their default, [boost::none]. *)
Definition localCoordinates (p t2 : Point2) : Vector :=
  Logmap (fst (fst (between p t2 None None))).

(** [inline void operator += (const Point2& q) {x_+=q.x_;y_+=q.y_;}]:
    the point after the call. *)
Definition operator_plus_assign (p q : Point2) : Point2 :=
  {| x_ := x_ p + x_ q; y_ := y_ p + y_ q |}.

(** [inline void operator *= (double s) {x_*=s;y_*=s;}] *)
Definition operator_times_assign (p : Point2) (s : float) : Point2 :=
  {| x_ := x_ p * s; y_ := y_ p * s |}.

(** [inline bool operator ==(const Point2& q) const
      {return x_==q.x_ && q.y_==q.y_;}] *)
Definition operator_eq (p q : Point2) : bool :=
  (x_ p =? x_ q)%float && (y_ q =? y_ q)%float.

(** [double x() const {return x_;}] and [double y() const {return y_;}] *)
Definition x (p : Point2) : float := x_ p.
Definition y (p : Point2) : float := y_ p.

(** [Vector vector() const { return Vector_(2, x_, y_); }] *)
Definition vector (p : Point2) : Vector := Vector_ 2 [x_ p; y_ p].

(** [inline Point2 operator*(double s, const Point2& p) {return p*s;}] *)
Definition scalar_times (s : float) (p : Point2) : Point2 := operator_times p s.

End Point2.

(** A coordinate that is neither infinite nor a NaN. *)
Definition finite_point (p : Point2) : Prop :=
  is_finite (x_ p) = true /\ is_finite (y_ p) = true.

(** The point [(1.5, -2)]. *)
Definition sample_point : Point2 := {| x_ := 1.5; y_ := -2 |}.

(** * Properties *)

Section Arithmetic.

(** ** Wrap-around *)

Lemma SIZE_MOD_pos : 0 < SIZE_MOD.
Proof. reflexivity. Qed.

Lemma wrap_small (x : Z) : in_size_t x -> wrap x = x.
Proof. intros H. apply Z.mod_small. exact H. Qed.

Lemma wrap_in_size_t (x : Z) : in_size_t (wrap x).
Proof. apply Z.mod_pos_bound. exact SIZE_MOD_pos. Qed.

Lemma wrap_add_wrap_r (x y : Z) : wrap (x + wrap y) = wrap (x + y).
Proof. unfold wrap. apply Zplus_mod_idemp_r. Qed.

Lemma vsize_nonneg (v : Vector) : 0 <= vsize v.
Proof. unfold vsize. lia. Qed.

(** ** Running sums *)

Lemma total_app (D E : list size_t) : total (D ++ E) = total D + total E.
Proof. unfold total. induction D as [|d D IH]; simpl; lia. Qed.

Lemma total_nonneg (D : list size_t) : Forall (fun d => 0 <= d) D -> 0 <= total D.
Proof. unfold total. induction 1; simpl; lia. Qed.

Lemma total_take_le (D : list size_t) (i : nat) :
  Forall (fun d => 0 <= d) D -> 0 <= total (take i D) <= total D.
Proof.
  intros H. rewrite <- (take_drop i D) at 3. rewrite total_app.
  assert (0 <= total (take i D)) by (apply total_nonneg, Forall_take, H).
  assert (0 <= total (drop i D)) by (apply total_nonneg, Forall_drop, H).
  lia.
Qed.

Lemma total_replicate (n : nat) (d : Z) : total (replicate n d) = Z.of_nat n * d.
Proof. unfold total. induction n as [|n IH]; simpl replicate; simpl foldr; lia. Qed.

Lemma length_running_sum (D : list size_t) (acc : Z) :
  length (running_sum acc D) = length D.
Proof. revert acc. induction D as [|d D IH]; intros acc; simpl; auto. Qed.

Lemma running_sum_wrap_exact (D : list size_t) (acc : Z) :
  Forall (fun d => 0 <= d) D -> 0 <= acc -> acc + total D < SIZE_MOD ->
  running_sum_wrap acc D = running_sum acc D.
Proof.
  intros H. revert acc. induction H as [|d D Hd HD IH]; intros acc Hacc Hsum.
  - reflexivity.
  - unfold total in *. simpl in *.
    pose proof (total_nonneg D HD) as Hnn. unfold total in Hnn.
    rewrite (wrap_small (acc + d)) by (unfold in_size_t; lia).
    f_equal. apply IH; lia.
Qed.

Lemma running_sum_lookup (D : list size_t) (acc : Z) (i : nat) :
  (i <= length D)%nat ->
  (acc :: running_sum acc D) !! i = Some (acc + total (take i D)).
Proof.
  revert acc i. induction D as [|d D IH]; intros acc i Hi.
  - assert (i = 0%nat) as -> by (simpl in Hi; lia). simpl. f_equal. unfold total. simpl. lia.
  - destruct i as [|i].
    + simpl. f_equal. unfold total. simpl. lia.
    + simpl in Hi. change ((acc :: running_sum acc (d :: D)) !! S i)
        with (((acc + d) :: running_sum (acc + d) D) !! i).
      rewrite IH by lia. f_equal. simpl take. unfold total. simpl. lia.
Qed.

Lemma back_running_sum (D : list size_t) (acc : Z) :
  back (acc :: running_sum acc D) = acc + total D.
Proof.
  unfold back. revert acc. induction D as [|d D IH]; intros acc.
  - unfold total. simpl. lia.
  - change (List.last (acc :: running_sum acc (d :: D)) 0)
      with (List.last ((acc + d) :: running_sum (acc + d) D) 0).
    rewrite IH. unfold total. simpl. lia.
Qed.

Lemma running_sum_nondecreasing (D : list size_t) (acc : Z) :
  Forall (fun d => 0 <= d) D -> nondecreasing (acc :: running_sum acc D).
Proof.
  intros H. revert acc. induction H as [|d D Hd HD IH]; intros acc.
  - exact I.
  - change (running_sum acc (d :: D)) with ((acc + d) :: running_sum (acc + d) D).
    split; [lia | apply IH].
Qed.

End Arithmetic.

Section Construction.

Lemma insert_at_boundary (pre post : list size_t) (p x : size_t) :
  <[length pre := x]> (pre ++ p :: post) = pre ++ x :: post.
Proof.
  rewrite insert_app_r_alt by lia. rewrite Nat.sub_diag. reflexivity.
Qed.

Lemma fill_varStarts_closed (D : list size_t) :
  forall (var : Index) (s : size_t) (pre post : list size_t),
  0 <= var -> var + Z.of_nat (length D) < SIZE_MOD ->
  length pre = Z.to_nat (var + 1) -> (length D <= length post)%nat ->
  fill_varStarts D var s (pre ++ post)
  = pre ++ running_sum_wrap s D ++ drop (length D) post.
Proof.
  induction D as [|d D IH]; intros var s pre post Hvar Hlen Hpre Hpost.
  - reflexivity.
  - simpl in Hlen, Hpost. destruct post as [|p post]; [simpl in Hpost; lia|].
    simpl in Hpost. simpl fill_varStarts.
    rewrite (wrap_small (var + 1)) by (unfold in_size_t; lia).
    rewrite <- Hpre, insert_at_boundary.
    change (pre ++ wrap (s + d) :: post) with (pre ++ [wrap (s + d)] ++ post).
    rewrite app_assoc. rewrite IH.
    + rewrite <- app_assoc. reflexivity.
    + lia.
    + lia.
    + rewrite length_app, Hpre. simpl. lia.
    + lia.
Qed.

Lemma fill_uniform_closed (count : nat) :
  forall (j : Index) (d s : size_t) (pre post : list size_t),
  0 <= j -> j + Z.of_nat count <= SIZE_MOD ->
  length pre = Z.to_nat j -> (count <= length post)%nat ->
  fill_uniform count j d s (pre ++ post)
  = pre ++ running_sum_wrap s (replicate count d) ++ drop count post.
Proof.
  induction count as [|count IH]; intros j d s pre post Hj Hlen Hpre Hpost.
  - reflexivity.
  - destruct post as [|p post]; [simpl in Hpost; lia|].
    simpl in Hpost. simpl fill_uniform.
    rewrite <- Hpre, insert_at_boundary.
    change (pre ++ wrap (s + d) :: post) with (pre ++ [wrap (s + d)] ++ post).
    rewrite app_assoc.
    destruct count as [|count'].
    + simpl. rewrite <- app_assoc. reflexivity.
    + rewrite (wrap_small (j + 1)) by (unfold in_size_t; lia).
      rewrite IH.
      * rewrite <- app_assoc. reflexivity.
      * lia.
      * lia.
      * rewrite length_app, Hpre. simpl. lia.
      * lia.
Qed.

Lemma init_varStarts_S (n : nat) :
  init_varStarts (Z.of_nat (S n)) = [0] ++ replicate n 0.
Proof.
  unfold init_varStarts. rewrite Nat2Z.id. reflexivity.
Qed.

Lemma varStarts_dims (D : list size_t) :
  Z.of_nat (length D) + 1 < SIZE_MOD ->
  fill_varStarts D 0 0 (init_varStarts (wrap (Z.of_nat (length D) + 1)))
  = 0 :: running_sum_wrap 0 D.
Proof.
  intros Hlen. rewrite wrap_small by (unfold in_size_t; lia).
  replace (Z.of_nat (length D) + 1) with (Z.of_nat (S (length D))) by lia.
  rewrite init_varStarts_S, fill_varStarts_closed.
  - rewrite drop_ge by (rewrite length_replicate; lia).
    rewrite app_nil_r. reflexivity.
  - lia.
  - lia.
  - reflexivity.
  - rewrite length_replicate. lia.
Qed.

Lemma varStarts_uniform (nVars : Index) (varDim : size_t) :
  0 <= nVars -> nVars + 1 < SIZE_MOD ->
  fill_uniform (Z.to_nat nVars) 1 varDim 0 (init_varStarts (wrap (nVars + 1)))
  = 0 :: running_sum_wrap 0 (replicate (Z.to_nat nVars) varDim).
Proof.
  intros Hn Hlen. rewrite wrap_small by (unfold in_size_t; lia).
  replace (nVars + 1) with (Z.of_nat (S (Z.to_nat nVars))) by lia.
  rewrite init_varStarts_S, fill_uniform_closed.
  - rewrite drop_ge by (rewrite length_replicate; lia).
    rewrite app_nil_r. reflexivity.
  - lia.
  - lia.
  - reflexivity.
  - rewrite length_replicate. lia.
Qed.

Lemma vsize_resize_discard (uninit : garbage) (n : size_t) :
  0 <= n -> vsize (resize_discard uninit n) = n.
Proof.
  intros Hn. unfold vsize, resize_discard.
  rewrite length_map, length_seq. lia.
Qed.

End Construction.

Section BlockAccess.

Lemma at_lookup (l : list size_t) (i : nat) (x : size_t) :
  l !! i = Some x -> at_ l (Z.of_nat i) = x.
Proof. intros H. unfold at_. rewrite Nat2Z.id, H. reflexivity. Qed.

Lemma vsize_range_read (data : Vector) (r : range) :
  0 <= start_ r -> 0 <= size_ r -> start_ r + size_ r <= vsize data ->
  vsize (range_read data r) = size_ r.
Proof.
  unfold vsize, range_read. intros Hs Hn Hle.
  rewrite length_take, length_drop. lia.
Qed.

Lemma project_Ok (data : Vector) (start stop : size_t) :
  start <= stop -> stop <= vsize data ->
  project data start stop = Ok {| start_ := start; size_ := stop - start |}.
Proof.
  intros H1 H2. unfold project.
  destruct (Z.leb_spec start stop); [|lia].
  destruct (Z.leb_spec stop (vsize data)); [|lia]. reflexivity.
Qed.

Lemma project_inv (data : Vector) (start stop : size_t) (r : range) :
  project data start stop = Ok r ->
  start <= stop /\ stop <= vsize data /\ start_ r = start /\ size_ r = stop - start.
Proof.
  unfold project.
  destruct (Z.leb_spec start stop); simpl; [|discriminate].
  destruct (Z.leb_spec stop (vsize data)); [|discriminate].
  intros [= <-]. simpl. lia.
Qed.

Lemma checkVariable_Ok (v : VectorValues) (variable : Index) :
  variable < size v -> checkVariable v variable = Ok tt.
Proof.
  unfold checkVariable, size. intros H.
  destruct (Z.ltb_spec variable (wrap (Z.of_nat (length (varStarts_ v)) - 1)));
    [reflexivity | lia].
Qed.

(** Block [i] of a container whose offsets [i] and [i + 1] are [a <= b],
    inside the storage. *)
Lemma operator_index_Ok (v : VectorValues) (i : nat) (a b : size_t) :
  Z.of_nat (length (varStarts_ v)) <= SIZE_MOD ->
  varStarts_ v !! i = Some a -> varStarts_ v !! S i = Some b ->
  a <= b -> b <= dimCapacity v ->
  operator_index v (Z.of_nat i) = Ok {| start_ := a; size_ := b - a |}.
Proof.
  intros Hcount Ha Hb Hab Hcap.
  pose proof (lookup_lt_Some _ _ _ Hb) as Hlt.
  unfold operator_index. rewrite checkVariable_Ok.
  - simpl. rewrite (at_lookup _ _ _ Ha).
    rewrite wrap_small by (unfold in_size_t; lia).
    replace (Z.of_nat i + 1) with (Z.of_nat (S i)) by lia.
    rewrite (at_lookup _ _ _ Hb). apply project_Ok; assumption.
  - unfold size. rewrite wrap_small by (unfold in_size_t; lia). lia.
Qed.

End BlockAccess.

Section ConstructionSpec.

Lemma VectorValues_dims_varStarts (uninit : garbage) (D : list size_t) :
  valid_dims D ->
  varStarts_ (VectorValues_dims uninit D) = 0 :: running_sum 0 D.
Proof.
  intros (Hpos & Hsum & Hlen). unfold VectorValues_dims. cbn [varStarts_].
  rewrite varStarts_dims by assumption.
  rewrite running_sum_wrap_exact by (auto; lia). reflexivity.
Qed.

Lemma VectorValues_dims_dim (uninit : garbage) (D : list size_t) :
  valid_dims D -> dim (VectorValues_dims uninit D) = total D.
Proof.
  intros HD. unfold dim. rewrite VectorValues_dims_varStarts by assumption.
  rewrite back_running_sum. lia.
Qed.

Lemma VectorValues_dims_dimCapacity (uninit : garbage) (D : list size_t) :
  valid_dims D -> dimCapacity (VectorValues_dims uninit D) = total D.
Proof.
  intros HD. pose proof (VectorValues_dims_dim uninit D HD) as Hdim.
  unfold dimCapacity, VectorValues_dims in *. cbn [values_]. unfold dim in Hdim.
  cbn [varStarts_] in Hdim. rewrite Hdim.
  apply vsize_resize_discard, total_nonneg, HD.
Qed.

(** C1. For every valid dimension list [D], the container constructed from
    [D] has [size() = |D|] and [dim() = sum(D)], its boundary list is the
    running sum of [D] prefixed with 0, and for each [i < |D|] the block
    returned by [operator[]] has length [D[i]]. *)
Theorem VectorValues_dims_spec (uninit : garbage) (D : list size_t) :
  valid_dims D ->
  let v := VectorValues_dims uninit D in
  size v = Z.of_nat (length D)
  /\ dim v = total D
  /\ varStarts_ v = 0 :: running_sum 0 D
  /\ forall (i : nat) (d : size_t), D !! i = Some d ->
       exists r : range,
         operator_index v (Z.of_nat i) = Ok r
         /\ size_ r = d
         /\ block v (Z.of_nat i) = Ok (range_read (values_ v) r)
         /\ vsize (range_read (values_ v) r) = d.
Proof.
  intros HD. cbv zeta.
  pose proof (VectorValues_dims_varStarts uninit D HD) as Hstarts.
  pose proof (VectorValues_dims_dim uninit D HD) as Hdim.
  pose proof (VectorValues_dims_dimCapacity uninit D HD) as Hcap.
  destruct HD as (Hpos & Hsum & Hlen).
  assert (Hcount : Z.of_nat (length (varStarts_ (VectorValues_dims uninit D)))
                   = Z.of_nat (length D) + 1).
  { rewrite Hstarts. simpl. rewrite length_running_sum. lia. }
  split; [|split; [|split]].
  - unfold size. rewrite Hcount, wrap_small by (unfold in_size_t; lia). lia.
  - exact Hdim.
  - exact Hstarts.
  - intros i d Hi.
    pose proof (lookup_lt_Some _ _ _ Hi) as Hlt.
    pose proof (total_take_le D i Hpos) as Hti.
    pose proof (total_take_le D (S i) Hpos) as HtSi.
    assert (HSi : total (take (S i) D) = total (take i D) + d).
    { rewrite (take_S_r _ _ _ Hi), total_app. unfold total. simpl. lia. }
    assert (Hd : 0 <= d).
    { rewrite Forall_lookup in Hpos. exact (Hpos _ _ Hi). }
    assert (Hop : operator_index (VectorValues_dims uninit D) (Z.of_nat i)
                  = Ok {| start_ := total (take i D);
                          size_ := total (take (S i) D) - total (take i D) |}).
    { apply operator_index_Ok.
      - rewrite Hcount. lia.
      - rewrite Hstarts, running_sum_lookup by lia. f_equal.
      - rewrite Hstarts, running_sum_lookup by lia. f_equal.
      - lia.
      - rewrite Hcap. lia. }
    eexists. split; [exact Hop|]. split; [|split].
    + cbn [size_]. lia.
    + unfold block. rewrite Hop. reflexivity.
    + rewrite vsize_range_read; cbn [start_ size_]; try lia.
      change (vsize (values_ ?x)) with (dimCapacity x). rewrite Hcap. lia.
Qed.

(** The witness: dimensions [[2; 3]]. *)
Lemma VectorValues_dims_spec_witness :
  valid_dims [2; 3]
  /\ size (VectorValues_dims no_garbage [2; 3]) = 2
  /\ dim (VectorValues_dims no_garbage [2; 3]) = 5.
Proof.
  assert (H : valid_dims [2; 3]).
  { split; [|split].
    - repeat constructor; lia.
    - reflexivity.
    - reflexivity. }
  split; [exact H|].
  destruct (VectorValues_dims_spec no_garbage [2; 3] H) as (Hs & Hd & _).
  split; [exact Hs | exact Hd].
Defined.

End ConstructionSpec.

Section UniformConstructor.

Lemma varStarts_uniform_dims (u1 u2 : garbage) (nVars : Index) (varDim : size_t) :
  0 <= nVars -> nVars + 1 < SIZE_MOD ->
  varStarts_ (VectorValues_uniform u1 nVars varDim)
  = varStarts_ (VectorValues_dims u2 (replicate (Z.to_nat nVars) varDim)).
Proof.
  intros Hn Hlen. unfold VectorValues_uniform, VectorValues_dims. simpl.
  rewrite varStarts_uniform by assumption.
  rewrite varStarts_dims by (rewrite length_replicate; lia).
  reflexivity.
Qed.

(** C9. For every count [n] and uniform dimension [d], [VectorValues(n, d)]
    builds the same container as the dimension-sequence constructor on [n]
    repetitions of [d]: same [size()], same boundary list and same
    allocated storage length (the storage contents are uninitialised in
    both). *)
Theorem VectorValues_uniform_refines (u1 u2 : garbage) (n : Index) (d : size_t) :
  0 <= n -> n + 1 < SIZE_MOD ->
  let a := VectorValues_uniform u1 n d in
  let b := VectorValues_dims u2 (replicate (Z.to_nat n) d) in
  size a = size b
  /\ varStarts_ a = varStarts_ b
  /\ dimCapacity a = dimCapacity b.
Proof.
  intros Hn Hlen. cbv zeta.
  pose proof (varStarts_uniform_dims u1 u2 n d Hn Hlen) as Hstarts.
  split; [|split].
  - unfold size. rewrite Hstarts. reflexivity.
  - exact Hstarts.
  - unfold dimCapacity, VectorValues_uniform, VectorValues_dims, vsize,
      resize_discard in *. simpl in *.
    rewrite !length_map, !length_seq, Hstarts. reflexivity.
Qed.

(** The witness: three blocks of dimension two. *)
Lemma VectorValues_uniform_refines_witness :
  let a := VectorValues_uniform no_garbage 3 2 in
  let b := VectorValues_dims no_garbage (replicate (Z.to_nat 3) 2) in
  size a = size b /\ varStarts_ a = varStarts_ b /\ dimCapacity a = dimCapacity b.
Proof.
  apply (VectorValues_uniform_refines no_garbage no_garbage 3 2).
  - lia.
  - reflexivity.
Defined.

End UniformConstructor.

Section Offsets.

(** ** Facts on non-decreasing offset tables *)

Lemma nondecreasing_tail (a : Z) (l : list Z) :
  nondecreasing (a :: l) -> nondecreasing l.
Proof. destruct l as [|b l]; simpl; tauto. Qed.

Lemma nondecreasing_lookup_head (a : Z) (l : list Z) (i : nat) (x : Z) :
  nondecreasing (a :: l) -> (a :: l) !! i = Some x -> a <= x.
Proof.
  revert a i. induction l as [|b l IH]; intros a i Hnd Hi.
  - destruct i as [|i]; simpl in Hi; [injection Hi; lia | discriminate].
  - destruct i as [|i]; simpl in Hi; [injection Hi; lia|].
    destruct Hnd as [Hab Hnd]. specialize (IH b i Hnd Hi). lia.
Qed.

Lemma nondecreasing_lookup (l : list Z) (i j : nat) (a b : Z) :
  nondecreasing l -> l !! i = Some a -> l !! j = Some b -> (i <= j)%nat -> a <= b.
Proof.
  revert i j. induction l as [|x l IH]; intros i j Hnd Hi Hj Hij.
  - discriminate.
  - destruct i as [|i].
    + simpl in Hi. injection Hi as ->.
      exact (nondecreasing_lookup_head _ _ _ _ Hnd Hj).
    + destruct j as [|j]; [lia|]. simpl in Hi, Hj.
      apply (IH i j); [exact (nondecreasing_tail _ _ Hnd) | assumption.. | lia].
Qed.

Lemma nondecreasing_snoc (l : list Z) (x : Z) :
  nondecreasing l -> back l <= x -> l <> [] -> nondecreasing (l ++ [x]).
Proof.
  unfold back. induction l as [|a l IH]; intros Hnd Hx Hne; [congruence|].
  destruct l as [|b l].
  - simpl in *. lia.
  - destruct Hnd as [Hab Hnd]. split; [exact Hab|].
    apply IH; [exact Hnd | exact Hx | discriminate].
Qed.

Lemma back_snoc (l : list Z) (x : Z) : back (l ++ [x]) = x.
Proof. unfold back. apply last_last. Qed.

Lemma back_lookup (l : list Z) :
  l <> [] -> l !! (length l - 1)%nat = Some (back l).
Proof.
  unfold back. induction l as [|a l IH]; intros Hne; [congruence|].
  destruct l as [|b l]; [reflexivity|].
  change (List.last (a :: b :: l) 0) with (List.last (b :: l) 0).
  rewrite <- IH by discriminate. simpl. rewrite Nat.sub_0_r. reflexivity.
Qed.

Lemma at_nonneg (l : list Z) (i : Index) :
  head l = Some 0 -> nondecreasing l -> 0 <= at_ l i.
Proof.
  intros Hh Hnd. unfold at_.
  destruct (l !! Z.to_nat i) as [x|] eqn:Hx; simpl; [|lia].
  destruct l as [|a l]; [discriminate|]. simpl in Hh. injection Hh as ->.
  exact (nondecreasing_lookup_head _ _ _ _ Hnd Hx).
Qed.

(** What the invariant says about one container. *)
Lemma Inv_nonempty (v : VectorValues) : Inv v -> varStarts_ v <> [].
Proof. intros [Hh _ _] E. rewrite E in Hh. discriminate. Qed.

Lemma Inv_lookup_bounds (v : VectorValues) (i : nat) (a : Z) :
  Inv v -> varStarts_ v !! i = Some a -> 0 <= a <= dim v.
Proof.
  intros HI Ha. pose proof (Inv_nonempty v HI) as Hne.
  destruct HI as [Hh Hnd Hd]. split.
  - destruct (varStarts_ v) as [|x l]; [discriminate|].
    simpl in Hh. injection Hh as ->.
    exact (nondecreasing_lookup_head _ _ _ _ Hnd Ha).
  - unfold dim. pose proof (lookup_lt_Some _ _ _ Ha).
    apply (nondecreasing_lookup _ i (length (varStarts_ v) - 1) _ _ Hnd Ha);
      [apply back_lookup, Hne | lia].
Qed.

Lemma Inv_dim_nonneg (v : VectorValues) : Inv v -> 0 <= dim v.
Proof.
  intros HI. pose proof (back_lookup _ (Inv_nonempty v HI)) as Hb.
  apply (Inv_lookup_bounds v _ _ HI Hb).
Qed.

Lemma Inv_length_pos (v : VectorValues) :
  Inv v -> (1 <= length (varStarts_ v))%nat.
Proof.
  intros HI. pose proof (Inv_nonempty v HI).
  destruct (varStarts_ v); [congruence | simpl; lia].
Qed.

(** Every block of a container that satisfies the invariant is readable. *)
Lemma operator_index_Inv (v : VectorValues) (i : Index) :
  Inv v -> Z.of_nat (length (varStarts_ v)) <= SIZE_MOD ->
  0 <= i < size v ->
  exists a b, varStarts_ v !! Z.to_nat i = Some a
           /\ varStarts_ v !! S (Z.to_nat i) = Some b
           /\ 0 <= a <= b /\ b <= dim v
           /\ operator_index v i = Ok {| start_ := a; size_ := b - a |}.
Proof.
  intros HI Hcount Hi.
  pose proof (Inv_length_pos v HI) as Hpos.
  unfold size in Hi. rewrite wrap_small in Hi by (unfold in_size_t; lia).
  destruct (lookup_lt_is_Some_2 (varStarts_ v) (Z.to_nat i)) as [a Ha]; [lia|].
  destruct (lookup_lt_is_Some_2 (varStarts_ v) (S (Z.to_nat i))) as [b Hb]; [lia|].
  exists a, b.
  pose proof (Inv_lookup_bounds v _ _ HI Ha).
  pose proof (Inv_lookup_bounds v _ _ HI Hb).
  assert (a <= b).
  { apply (nondecreasing_lookup _ _ _ _ _ (Inv_nondecreasing v HI) Ha Hb). lia. }
  repeat split; try assumption; try lia.
  rewrite <- (Z2Nat.id i) at 1 by lia.
  apply operator_index_Ok; try assumption.
  pose proof (Inv_dim v HI). lia.
Qed.

End Offsets.
Section Mutators.

(** ** The monadic members, unfolded *)

Lemma assign_block_unfold (variable : Index) (vector : Vector) (v : VectorValues) :
  assign_block variable vector v
  = match operator_index v variable with
    | Err e => (Err e, v)
    | Ok r =>
        match range_assign (values_ v) r vector with
        | Err e => (Err e, v)
        | Ok data => (Ok tt, {| values_ := data; varStarts_ := varStarts_ v |})
        end
    end.
Proof.
  unfold assign_block, bind, get, lift, put.
  destruct (operator_index v variable) as [r|e]; [|reflexivity].
  destruct (range_assign (values_ v) r vector); reflexivity.
Qed.

Lemma push_back_preallocated_unfold (vector : Vector) (v : VectorValues) :
  push_back_preallocated vector v
  = match assign_block (size v) vector (pushed vector v) with
    | (Ok _, v') => (Ok (size v), v')
    | (Err e, v') => (Err e, v')
    end.
Proof.
  unfold push_back_preallocated, bind, get, put, ret, pushed, size, dim.
  destruct (assign_block _ vector _) as [[u|e] v']; reflexivity.
Qed.

Lemma reserve_unfold (nVars : Index) (totalDims : size_t) (v : VectorValues) :
  reserve nVars totalDims v
  = (Ok tt, {| values_ := resize_preserve (values_ v)
                            (Z.max totalDims (vsize (values_ v)));
               varStarts_ := varStarts_ v |}).
Proof. reflexivity. Qed.

(** ** Storage arithmetic *)

Lemma resize_preserve_grow (data : Vector) (n : size_t) :
  vsize data <= n ->
  resize_preserve data n = data ++ replicate (Z.to_nat n - length data) 0%float.
Proof.
  unfold resize_preserve, vsize. intros H. rewrite take_ge by lia. reflexivity.
Qed.

Lemma vsize_resize_preserve (data : Vector) (n : size_t) :
  0 <= n -> vsize (resize_preserve data n) = n.
Proof.
  unfold resize_preserve, vsize. intros H.
  rewrite length_app, length_take, length_replicate. lia.
Qed.

Lemma range_assign_Ok (data : Vector) (r : range) (vector : Vector) :
  vsize vector = size_ r ->
  range_assign data r vector
  = Ok (take (Z.to_nat (start_ r)) data ++ vector
        ++ drop (Z.to_nat (start_ r + size_ r)) data).
Proof.
  intros H. unfold range_assign. rewrite (proj2 (Z.eqb_eq _ _) H). reflexivity.
Qed.

Lemma range_assign_inv (data : Vector) (r : range) (vector data' : Vector) :
  range_assign data r vector = Ok data' ->
  vsize vector = size_ r
  /\ data' = take (Z.to_nat (start_ r)) data ++ vector
             ++ drop (Z.to_nat (start_ r + size_ r)) data.
Proof.
  unfold range_assign. destruct (Z.eqb_spec (vsize vector) (size_ r)); [|discriminate].
  intros [= <-]. auto.
Qed.

(** Writing a range that lies inside the storage keeps its length... *)
Lemma vsize_overwrite (data vector : Vector) (a : size_t) :
  0 <= a -> a + vsize vector <= vsize data ->
  vsize (take (Z.to_nat a) data ++ vector
         ++ drop (Z.to_nat (a + vsize vector)) data) = vsize data.
Proof.
  unfold vsize. intros Ha Hle.
  rewrite !length_app, length_take, length_drop. lia.
Qed.

(** ... returns what was written ... *)
Lemma range_read_overwrite (data vector : Vector) (a : size_t) :
  0 <= a -> a <= vsize data ->
  range_read (take (Z.to_nat a) data ++ vector
              ++ drop (Z.to_nat (a + vsize vector)) data)
             {| start_ := a; size_ := vsize vector |} = vector.
Proof.
  unfold vsize, range_read. simpl. intros Ha Hle.
  rewrite drop_app_length' by (rewrite length_take; lia).
  rewrite Nat2Z.id. apply take_app_length.
Qed.

(** ... and leaves every range below the written one as it was. *)
Lemma range_read_below (data tail : Vector) (r : range) (a : size_t) :
  0 <= start_ r -> 0 <= size_ r -> start_ r + size_ r <= a -> a <= vsize data ->
  range_read (take (Z.to_nat a) data ++ tail) r = range_read data r.
Proof.
  unfold vsize, range_read. intros Hs Hn Hle Ha.
  rewrite !take_drop_commute.
  rewrite take_app_le by (rewrite length_take; lia).
  rewrite take_take. do 2 f_equal. lia.
Qed.

End Mutators.
Section Append.

Variable v : VectorValues.
Variable blockValues : Vector.
Hypothesis HInv : Inv v.
Hypothesis Hcount : Z.of_nat (length (varStarts_ v)) < SIZE_MOD.
Hypothesis Hcap : dimCapacity v < SIZE_MOD.

(** The table after the boundary was pushed. *)
Lemma pushed_lookup_old (i : nat) :
  (i < length (varStarts_ v))%nat ->
  varStarts_ (pushed blockValues v) !! i = varStarts_ v !! i.
Proof. intros Hi. simpl. apply lookup_app_l. exact Hi. Qed.

Lemma pushed_lookup_new :
  varStarts_ (pushed blockValues v) !! length (varStarts_ v)
  = Some (wrap (dim v + vsize blockValues)).
Proof. simpl. rewrite lookup_app_r by lia. rewrite Nat.sub_diag. reflexivity. Qed.

Lemma size_pushed : size (pushed blockValues v) = size v + 1.
Proof.
  pose proof (Inv_length_pos v HInv).
  unfold size. simpl. rewrite length_app. simpl.
  rewrite !wrap_small by (unfold in_size_t; lia). lia.
Qed.

Lemma size_exact : size v = Z.of_nat (length (varStarts_ v)) - 1.
Proof.
  pose proof (Inv_length_pos v HInv).
  unfold size. apply wrap_small. unfold in_size_t. lia.
Qed.

(** The view through which the new block is written. *)
Lemma operator_index_pushed :
  operator_index (pushed blockValues v) (size v)
  = project (values_ v) (dim v) (wrap (dim v + vsize blockValues)).
Proof.
  pose proof (Inv_length_pos v HInv) as Hpos.
  unfold operator_index. rewrite checkVariable_Ok by (rewrite size_pushed; lia).
  cbn [rbind]. rewrite size_exact.
  replace (Z.of_nat (length (varStarts_ v)) - 1)
    with (Z.of_nat (length (varStarts_ v) - 1)) by lia.
  rewrite (at_lookup _ _ (dim v)).
  - rewrite (wrap_small (Z.of_nat (length (varStarts_ v) - 1) + 1))
      by (unfold in_size_t; lia).
    replace (Z.of_nat (length (varStarts_ v) - 1) + 1)
      with (Z.of_nat (length (varStarts_ v))) by lia.
    rewrite (at_lookup _ _ _ pushed_lookup_new). reflexivity.
  - rewrite pushed_lookup_old by lia. apply back_lookup, Inv_nonempty, HInv.
Qed.

(** With room for the block the append goes through. *)
Lemma push_back_preallocated_Ok :
  dim v + vsize blockValues <= dimCapacity v ->
  push_back_preallocated blockValues v
  = (Ok (size v),
     {| values_ := take (Z.to_nat (dim v)) (values_ v) ++ blockValues
                   ++ drop (Z.to_nat (dim v + vsize blockValues)) (values_ v);
        varStarts_ := varStarts_ v ++ [dim v + vsize blockValues] |}).
Proof.
  intros Hroom. pose proof (Inv_dim_nonneg v HInv) as Hdim.
  pose proof (vsize_nonneg blockValues) as Hk.
  rewrite push_back_preallocated_unfold, assign_block_unfold, operator_index_pushed.
  rewrite (wrap_small (dim v + vsize blockValues)) by (unfold in_size_t; lia).
  rewrite project_Ok by (unfold dimCapacity in Hroom; lia).
  replace (dim v + vsize blockValues - dim v) with (vsize blockValues) by lia.
  rewrite range_assign_Ok by reflexivity.
  unfold pushed. cbn [values_ varStarts_ start_ size_].
  rewrite (wrap_small (dim v + vsize blockValues)) by (unfold in_size_t; lia).
  reflexivity.
Qed.

(** Without room it stops at the block write, the boundary already pushed. *)
Lemma push_back_preallocated_Err :
  in_size_t (vsize blockValues) ->
  dimCapacity v < dim v + vsize blockValues ->
  push_back_preallocated blockValues v = (Err bad_index, pushed blockValues v).
Proof.
  intros Hk Hroom. pose proof (Inv_dim_nonneg v HInv) as Hdim.
  pose proof (Inv_dim v HInv) as Hfit.
  rewrite push_back_preallocated_unfold, assign_block_unfold, operator_index_pushed.
  assert (Hproj : project (values_ v) (dim v) (wrap (dim v + vsize blockValues))
                  = Err bad_index).
  { unfold project. fold (dimCapacity v).
    destruct (Z.leb_spec (dim v) (wrap (dim v + vsize blockValues))) as [H1|H1];
      [|reflexivity].
    destruct (Z.leb_spec (wrap (dim v + vsize blockValues)) (dimCapacity v)) as [H2|H2];
      [|reflexivity].
    exfalso. unfold wrap, in_size_t in *.
    destruct (Z_lt_le_dec (dim v + vsize blockValues) SIZE_MOD) as [Hlt|Hge].
    - rewrite Z.mod_small in H2 by lia. lia.
    - replace (dim v + vsize blockValues)
        with ((dim v + vsize blockValues - SIZE_MOD) + 1 * SIZE_MOD) in H1 by lia.
      rewrite Z.mod_add in H1 by (pose proof SIZE_MOD_pos; lia).
      rewrite Z.mod_small in H1 by lia. lia. }
  rewrite Hproj. reflexivity.
Qed.

End Append.
Section AppendSpec.

(** C2. With enough reserved capacity, [push_back_preallocated(blockValues)]
    on a container of [n] blocks returns [n]; afterwards [size()] is
    [n + 1], [dim()] has grown by [|blockValues|], block [n] is
    [blockValues] and every earlier block reads as before. *)
Theorem push_back_preallocated_spec (v : VectorValues) (blockValues : Vector) :
  Inv v -> representable v ->
  dim v + vsize blockValues <= dimCapacity v ->
  exists v' : VectorValues,
    push_back_preallocated blockValues v = (Ok (size v), v')
    /\ size v' = size v + 1
    /\ dim v' = dim v + vsize blockValues
    /\ block v' (size v) = Ok blockValues
    /\ forall i : Index, 0 <= i < size v -> block v' i = block v i.
Proof.
  intros HInv [Hcount Hcap] Hroom.
  pose proof (Inv_dim_nonneg v HInv) as Hdim.
  pose proof (Inv_length_pos v HInv) as Hpos.
  pose proof (vsize_nonneg blockValues) as Hk.
  pose proof (size_exact v HInv Hcount) as Hsize.
  eexists. split; [apply push_back_preallocated_Ok; assumption|].
  set (v' := {| values_ := _; varStarts_ := _ |}).
  assert (Hcap' : dimCapacity v' = dimCapacity v).
  { unfold dimCapacity, v'. cbn [values_].
    apply vsize_overwrite; [lia | exact Hroom]. }
  assert (Hlen' : length (varStarts_ v') = S (length (varStarts_ v))).
  { unfold v'. cbn [varStarts_]. rewrite length_app. simpl. lia. }
  split; [|split; [|split]].
  - unfold size at 1. rewrite Hlen', Hsize.
    rewrite wrap_small by (unfold in_size_t; lia). lia.
  - unfold dim, v'. cbn [varStarts_]. apply back_snoc.
  - unfold block. rewrite Hsize.
    replace (Z.of_nat (length (varStarts_ v)) - 1)
      with (Z.of_nat (length (varStarts_ v) - 1)) by lia.
    rewrite (operator_index_Ok v' _ (dim v) (dim v + vsize blockValues)).
    + cbn [rbind]. f_equal.
      replace (dim v + vsize blockValues - dim v) with (vsize blockValues) by lia.
      unfold v'. cbn [values_].
      apply range_read_overwrite; [lia | pose proof (Inv_dim v HInv); unfold dimCapacity in *; lia].
    + rewrite Hlen'. lia.
    + unfold v'. cbn [varStarts_]. rewrite lookup_app_l by lia.
      apply back_lookup, Inv_nonempty, HInv.
    + unfold v'. cbn [varStarts_].
      replace (S (length (varStarts_ v) - 1)) with (length (varStarts_ v)) by lia.
      rewrite lookup_app_r by lia. rewrite Nat.sub_diag. reflexivity.
    + lia.
    + rewrite Hcap'. exact Hroom.
  - intros i Hi.
    destruct (operator_index_Inv v i HInv) as (a & b & Ha & Hb & Hab & Hbd & Hop);
      [lia | exact Hi |].
    pose proof (lookup_lt_Some _ _ _ Hb) as HSi.
    pose proof (Inv_dim v HInv) as Hfit.
    unfold block. rewrite Hop.
    rewrite <- (Z2Nat.id i) at 1 by lia.
    rewrite (operator_index_Ok v' _ a b).
    + cbn [rbind]. f_equal. unfold v'. cbn [values_].
      apply range_read_below; cbn [start_ size_]; unfold dimCapacity in *; lia.
    + rewrite Hlen'. lia.
    + unfold v'. cbn [varStarts_]. rewrite lookup_app_l by lia. exact Ha.
    + unfold v'. cbn [varStarts_]. rewrite lookup_app_l by lia. exact Hb.
    + lia.
    + rewrite Hcap'. lia.
Qed.

(** The witness: a third entry appended behind the block of [slack_a]. *)
Lemma push_back_preallocated_spec_witness :
  exists v' : VectorValues,
    push_back_preallocated [5]%float slack_a = (Ok (size slack_a), v')
    /\ size v' = size slack_a + 1
    /\ dim v' = dim slack_a + vsize [5]%float
    /\ block v' (size slack_a) = Ok [5]%float
    /\ forall i : Index, 0 <= i < size slack_a -> block v' i = block slack_a i.
Proof.
  apply (push_back_preallocated_spec slack_a [5]%float).
  - split; [reflexivity | vm_compute; split; [discriminate | exact I] | vm_compute; discriminate].
  - split; reflexivity.
  - vm_compute. discriminate.
Defined.

(** The example of the spec: after [reserve(3, 10)], blocks of sizes 2, 4
    and 4 are given the indices 0, 1 and 2 and fill the storage. *)
Example push_back_preallocated_2_4_4 :
  (do a <- push_back_preallocated [1; 2]%float;
   do b <- push_back_preallocated [3; 4; 5; 6]%float;
   do c <- push_back_preallocated [7; 8; 9; 10]%float;
   ret (a, b, c)) reserved_3_10
  = (Ok (0, 1, 2),
     {| values_ := [1; 2; 3; 4; 5; 6; 7; 8; 9; 10]%float;
        varStarts_ := [0; 2; 6; 10] |}).
Proof. reflexivity. Qed.

End AppendSpec.
Section AppendFailure.

(** C5, as the code has it.  When the block does not fit
    ([dim() + |blockValues| > dimCapacity()]), [push_back_preallocated]
    fails with an error at the block write.  The new boundary has been
    pushed by then: the container left behind has one boundary more
    ([size()] grown by one, [dim()] moved to the new boundary), over a
    storage of the same capacity. *)
Theorem push_back_preallocated_overflow (v : VectorValues) (blockValues : Vector) :
  Inv v -> representable v -> in_size_t (vsize blockValues) ->
  dim v + vsize blockValues > dimCapacity v ->
  exists (e : error) (v' : VectorValues),
    push_back_preallocated blockValues v = (Err e, v')
    /\ varStarts_ v' = varStarts_ v ++ [wrap (dim v + vsize blockValues)]
    /\ size v' = size v + 1
    /\ dim v' = wrap (dim v + vsize blockValues)
    /\ dimCapacity v' = dimCapacity v.
Proof.
  intros HInv [Hcount Hcap] Hk Hroom.
  exists bad_index, (pushed blockValues v).
  split; [apply push_back_preallocated_Err; assumption || lia|].
  split; [reflexivity|]. split; [apply size_pushed; assumption|].
  split; [|reflexivity].
  unfold dim at 1, pushed. cbn [varStarts_]. apply back_snoc.
Qed.

(** The witness: two entries pushed into storage reserved for one. *)
Lemma push_back_preallocated_overflow_witness :
  exists (e : error) (v' : VectorValues),
    push_back_preallocated [1; 2]%float (snd (reserve 1 1 VectorValues_default))
    = (Err e, v')
    /\ varStarts_ v' = [0] ++ [wrap (0 + 2)]
    /\ size v' = 0 + 1
    /\ dim v' = wrap (0 + 2)
    /\ dimCapacity v' = 1.
Proof.
  apply (push_back_preallocated_overflow
           (snd (reserve 1 1 VectorValues_default)) [1; 2]%float).
  - split; [reflexivity | exact I | vm_compute; discriminate].
  - split; reflexivity.
  - split; [vm_compute; discriminate | reflexivity].
  - reflexivity.
Defined.

(** C5 fails as stated: the failed append of two entries into storage
    reserved for one leaves a container with a longer boundary list, one
    more block and a larger [dim()]. *)
Lemma push_back_preallocated_failure_changes_container :
  let v := snd (reserve 1 1 VectorValues_default) in
  let blockValues := [1; 2]%float in
  dim v + vsize blockValues > dimCapacity v
  /\ exists (e : error) (v' : VectorValues),
       push_back_preallocated blockValues v = (Err e, v')
       /\ v' <> v
       /\ length (varStarts_ v') = S (length (varStarts_ v))
       /\ size v' <> size v
       /\ dim v' <> dim v.
Proof.
  cbv zeta. split; [reflexivity|].
  exists bad_index, {| values_ := [0%float]; varStarts_ := [0; 2] |}.
  split; [reflexivity|]. repeat split; vm_compute; discriminate.
Qed.

End AppendFailure.
Section Reserve.

(** C7. [reserve(variableCountHint, totalDimHint)] always succeeds; the
    capacity becomes [max(old dimCapacity(), totalDimHint)], and nothing
    logical changes: [size()], [dim()], the boundary list and every entry
    of the old storage, hence every entry of the used range [[0, dim())],
    are as before the call. *)
Theorem reserve_spec (v : VectorValues) (variableCountHint : Index)
    (totalDimHint : size_t) :
  let v' := snd (reserve variableCountHint totalDimHint v) in
  fst (reserve variableCountHint totalDimHint v) = Ok tt
  /\ dimCapacity v' = Z.max (dimCapacity v) totalDimHint
  /\ size v' = size v
  /\ dim v' = dim v
  /\ varStarts_ v' = varStarts_ v
  /\ (forall i : nat, Z.of_nat i < dimCapacity v ->
        values_ v' !! i = values_ v !! i)
  /\ (forall i : nat, Z.of_nat i < dim v -> dim v <= dimCapacity v ->
        values_ v' !! i = values_ v !! i).
Proof.
  cbv zeta. rewrite reserve_unfold. cbn [fst snd].
  pose proof (vsize_nonneg (values_ v)) as Hcap.
  assert (Hold : forall i : nat, Z.of_nat i < dimCapacity v ->
            resize_preserve (values_ v) (Z.max totalDimHint (vsize (values_ v))) !! i
            = values_ v !! i).
  { intros i Hi. rewrite resize_preserve_grow by lia.
    apply lookup_app_l. unfold dimCapacity, vsize in Hi. lia. }
  split; [reflexivity|]. split.
  { unfold dimCapacity. cbn [values_]. rewrite vsize_resize_preserve by lia. lia. }
  split; [reflexivity|]. split; [reflexivity|]. split; [reflexivity|].
  split.
  - exact Hold.
  - intros i Hi Hfit. apply Hold. lia.
Qed.

(** The example of the spec, and a reserve that asks for less than is
    there. *)
Example reserve_3_10 :
  reserve 3 10 VectorValues_default
  = (Ok tt, {| values_ := replicate 10 0%float; varStarts_ := [0] |}).
Proof. reflexivity. Qed.

Example reserve_smaller :
  snd (reserve 1 2 sample_23) = sample_23.
Proof. reflexivity. Qed.

End Reserve.
Section Iterator.

(** C10. The postfix operators [it++] and [it--] throw a runtime error
    whatever the iterator is and leave it where it was; the prefix forms
    [++it] and [--it] succeed and move the position one block forward and
    one block backward. *)
Theorem postfix_operators_throw (it : _impl_iterator) :
  postfix_incr it = (Err (runtime_error "Use prefix ++ operator"), it)
  /\ postfix_decr it = (Err (runtime_error "Use prefix -- operator"), it)
  /\ fst (prefix_incr it) = Ok tt
  /\ fst (prefix_decr it) = Ok tt
  /\ config_ (snd (prefix_incr it)) = config_ it
  /\ config_ (snd (prefix_decr it)) = config_ it
  /\ curVariable_ (snd (prefix_incr it)) = wrap (curVariable_ it + 1)
  /\ curVariable_ (snd (prefix_decr it)) = wrap (curVariable_ it - 1)
  /\ (in_size_t (curVariable_ it + 1) ->
        curVariable_ (snd (prefix_incr it)) = curVariable_ it + 1)
  /\ (in_size_t (curVariable_ it - 1) ->
        curVariable_ (snd (prefix_decr it)) = curVariable_ it - 1).
Proof.
  repeat split; try reflexivity.
  - intros H. cbn. apply wrap_small, H.
  - intros H. cbn. apply wrap_small, H.
Qed.

(** [it += k] moves the iterator to block [i + k]. *)
Lemma plus_assign_position (it : _impl_iterator) (k : ptrdiff_t) :
  curVariable_ (snd (plus_assign k it)) = wrap (curVariable_ it + k).
Proof. cbn. apply wrap_add_wrap_r. Qed.

(** Dereferencing reads the block its position names in its container. *)
Lemma deref_operator_index (mem : memory) (a : address) (i : Index) :
  deref mem {| config_ := a; curVariable_ := i |} = operator_index (mem a) i.
Proof. reflexivity. Qed.

(** C6, where the code departs from it.  [it += k] moves the iterator
    from block [i] to block [i + k], but [it -= k] runs the same
    statement [curVariable_ += step]: it moves to [i + k] too, and
    [+= k] followed by [-= k] ends at [i + 2k] instead of [i]. *)
Theorem minus_assign_adds_step (it : _impl_iterator) (k : ptrdiff_t) :
  curVariable_ (snd (plus_assign k it)) = wrap (curVariable_ it + k)
  /\ curVariable_ (snd (minus_assign k it)) = wrap (curVariable_ it + k)
  /\ curVariable_ (snd (minus_assign k (snd (plus_assign k it))))
     = wrap (curVariable_ it + 2 * k).
Proof.
  split; [apply plus_assign_position|].
  split; [apply plus_assign_position|].
  cbn. rewrite !wrap_add_wrap_r. unfold wrap.
  rewrite Zplus_mod_idemp_l. f_equal. lia.
Qed.

(** At block 1 of a three-block container, [it -= 1] lands on block 2 and
    not on block 0, and [it += 1; it -= 1] lands on block 3, the end. *)
Example minus_assign_at_block_1 :
  let it := {| config_ := 0%nat; curVariable_ := 1 |} in
  curVariable_ (snd (minus_assign 1 it)) = 2
  /\ curVariable_ (snd (minus_assign 1 (snd (plus_assign 1 it)))) = 3.
Proof. split; reflexivity. Qed.

End Iterator.
Section Equality.

(** ** The tolerance test on binary64 *)

(** [x - x] is a zero, or a NaN when [x] is infinite or a NaN. *)
Lemma SF64sub_diag (s : spec_float) :
  match SFabs (SF64sub s s) with
  | S754_zero _ | S754_nan => True
  | _ => False
  end.
Proof.
  destruct s as [b | b | | b m e]; simpl; try exact I.
  - destruct b; exact I.
  - destruct b; exact I.
  - unfold SF64sub, SFsub. cbv zeta.
    rewrite Z.min_id, Z.sub_diag. exact I.
Qed.

(** No entry differs from itself by more than a tolerance [tol >= 0]. *)
Lemma mismatch_refl (tol x : float) :
  (0 <=? tol)%float = true -> mismatch tol x x = false.
Proof.
  unfold mismatch. rewrite ltb_spec, leb_spec, abs_spec, sub_spec.
  pose proof (SF64sub_diag (Prim2SF x)) as H.
  destruct (SFabs (SF64sub (Prim2SF x) (Prim2SF x))) as [b | b | | b m e];
    try contradiction.
  - change (Prim2SF 0) with (S754_zero false).
    destruct (Prim2SF tol) as [b' | b' | | b' m' e'];
      try destruct b'; destruct b; cbv; congruence.
  - intros _. destruct (Prim2SF tol) as [b' | b' | | b' m' e']; reflexivity.
Qed.

Lemma equal_with_abs_tol_refl (vec : Vector) (tol : float) :
  (0 <=? tol)%float = true -> equal_with_abs_tol vec vec tol = true.
Proof.
  intros Htol. unfold equal_with_abs_tol.
  rewrite Z.eqb_refl. cbn [andb].
  induction vec as [|x vec IH]; [reflexivity|].
  cbn [zip zip_with forallb fst snd]. fold (zip vec vec).
  rewrite (mismatch_refl tol x Htol). exact IH.
Qed.

(** ** The loop of [equals] *)

Lemma equals_loop_refl (X : VectorValues) (tol : float) :
  Inv X -> representable X -> (0 <=? tol)%float = true ->
  forall (count : nat) (var : Index),
    0 <= var -> var + Z.of_nat count = size X ->
    equals_loop count var X X tol = Ok true.
Proof.
  intros HInv [Hcount Hcap] Htol. induction count as [|count IH]; intros var Hvar Hend.
  - reflexivity.
  - cbn [equals_loop].
    destruct (operator_index_Inv X var HInv) as (a & b & _ & _ & _ & _ & Hop);
      [lia | lia |].
    unfold block. rewrite Hop. cbn [rbind].
    rewrite equal_with_abs_tol_refl by exact Htol.
    pose proof (wrap_in_size_t (Z.of_nat (length (varStarts_ X)) - 1)) as Hsz.
    fold (size X) in Hsz. unfold in_size_t in Hsz.
    rewrite wrap_small by (unfold in_size_t; lia).
    apply IH; lia.
Qed.

(** C8. [equals(X, X, tol)] is true for every tolerance [tol >= 0], and
    [equals(X, Y, tol)] is false whenever [X] and [Y] differ in [size()],
    whatever the tolerance. *)
Theorem equals_spec :
  (forall (X : VectorValues) (tol : float),
     Inv X -> representable X -> (0 <=? tol)%float = true ->
     equals X X tol = Ok true)
  /\ (forall (X Y : VectorValues) (tol : float),
        size X <> size Y -> equals X Y tol = Ok false).
Proof.
  split.
  - intros X tol HInv Hc Htol. unfold equals. rewrite Z.eqb_refl.
    pose proof (wrap_in_size_t (Z.of_nat (length (varStarts_ X)) - 1)) as Hsz.
    fold (size X) in Hsz. unfold in_size_t in Hsz.
    apply equals_loop_refl; try assumption; lia.
  - intros X Y tol Hne. unfold equals.
    destruct (Z.eqb_spec (size X) (size Y)); [contradiction | reflexivity].
Qed.

(** The witness: the container of the spec's example against itself at
    tolerance [0.5], and against a container of one block. *)
Lemma equals_spec_witness :
  equals sample_23 sample_23 0.5 = Ok true
  /\ equals sample_23 tight 0.5 = Ok false.
Proof.
  split.
  - apply (proj1 equals_spec sample_23 0.5%float).
    + split; [reflexivity | vm_compute; repeat split; discriminate
              | vm_compute; discriminate].
    + split; reflexivity.
    + reflexivity.
  - apply (proj2 equals_spec sample_23 tight 0.5%float).
    vm_compute. discriminate.
Defined.

End Equality.
Section DotProduct.

Lemma used_full (v : VectorValues) :
  dim v = dimCapacity v -> used v = values_ v.
Proof.
  unfold used, dimCapacity, vsize. intros ->.
  rewrite Nat2Z.id. apply firstn_all.
Qed.

(** C3, as the code has it.  [dot(A, B)] hands the whole storage of both
    operands to the flat inner product: it is the inner product over
    [[0, dimCapacity())], it fails when the capacities differ, and it is
    the inner product of the used ranges [[0, dim())] when neither operand
    has slack capacity.  The operands are passed by const reference: [dot]
    is a function of the two containers and returns nothing but the
    number. *)
Theorem dot_whole_storage (A B : VectorValues) :
  dot A B = Vector_dot (values_ A) (values_ B)
  /\ (dimCapacity A = dimCapacity B ->
        dot A B = Ok (inner_prod (values_ A) (values_ B)))
  /\ (dimCapacity A <> dimCapacity B -> dot A B = Err bad_size)
  /\ (dim A = dimCapacity A -> dim B = dimCapacity B -> dim A = dim B ->
        dot A B = Ok (inner_prod (used A) (used B))).
Proof.
  unfold dot, Vector_dot, dimCapacity.
  split; [reflexivity|]. split; [|split].
  - intros H. rewrite (proj2 (Z.eqb_eq _ _) H). reflexivity.
  - intros H. rewrite (proj2 (Z.eqb_neq _ _) H). reflexivity.
  - intros HA HB HAB. rewrite !used_full by assumption.
    unfold dimCapacity in *.
    rewrite (proj2 (Z.eqb_eq (vsize (values_ A)) (vsize (values_ B)))) by lia.
    reflexivity.
Qed.

(** The witness: the container of the spec's example with itself. *)
Lemma dot_whole_storage_witness :
  dot sample_23 sample_23 = Ok (inner_prod (used sample_23) (used sample_23)).
Proof.
  apply (proj2 (proj2 (proj2 (dot_whole_storage sample_23 sample_23))));
    reflexivity.
Defined.

(** C3 fails as stated.  [slack_a] and [tight] have the same boundaries
    [[0; 2]], hence the same [dim()], but capacities 3 and 2: [dot] fails on
    them, where the used ranges have inner product 3.  [slack_b] has
    [dim() = 2] and a third, slack entry 5: [dot(slack_b, slack_b)] is 38,
    where the used ranges have inner product 13. *)
Lemma dot_reads_slack_capacity :
  (dim slack_a = dim tight
   /\ dot slack_a tight = Err bad_size
   /\ inner_prod (used slack_a) (used tight) = 3%float)
  /\ (dim slack_b = 2
      /\ dot slack_b slack_b = Ok 38%float
      /\ inner_prod (used slack_b) (used slack_b) = 13%float).
Proof. repeat split; reflexivity. Qed.

End DotProduct.
Section Invariant.

(** ** Constructors establish the invariant *)

Lemma Inv_of_running_sum (v : VectorValues) (D : list size_t) :
  Forall (fun d => 0 <= d) D ->
  varStarts_ v = 0 :: running_sum 0 D -> dimCapacity v = total D ->
  Inv v.
Proof.
  intros Hpos Hstarts Hcap. split.
  - rewrite Hstarts. reflexivity.
  - rewrite Hstarts. apply running_sum_nondecreasing, Hpos.
  - unfold dim. rewrite Hstarts, back_running_sum, Hcap. lia.
Qed.

Lemma bounded_of_running_sum (v : VectorValues) (D : list size_t) :
  valid_dims D ->
  varStarts_ v = 0 :: running_sum 0 D -> dimCapacity v = total D ->
  bounded v.
Proof.
  intros (Hpos & Hsum & Hlen) Hstarts Hcap. split.
  - rewrite Hstarts. cbn [length]. rewrite length_running_sum. lia.
  - lia.
Qed.

Lemma valid_dims_replicate (nVars : Index) (varDim : size_t) :
  0 <= nVars -> 0 <= varDim -> nVars + 1 < SIZE_MOD -> nVars * varDim < SIZE_MOD ->
  valid_dims (replicate (Z.to_nat nVars) varDim).
Proof.
  intros Hn Hd Hlen Hsum. split; [|split].
  - apply Forall_replicate, Hd.
  - rewrite total_replicate. lia.
  - rewrite length_replicate. lia.
Qed.

Lemma VectorValues_values_inv (D : list size_t) (values : Vector) (v : VectorValues) :
  valid_dims D -> VectorValues_values D values = Ok v ->
  varStarts_ v = 0 :: running_sum 0 D /\ dimCapacity v = total D.
Proof.
  intros HD. pose proof (VectorValues_dims_varStarts no_garbage D HD) as Hstarts.
  unfold VectorValues_values, VectorValues_dims in *. cbn [varStarts_] in Hstarts.
  rewrite Hstarts, back_running_sum.
  destruct (Z.eqb_spec (0 + total D) (vsize values)) as [E|]; [|discriminate].
  intros [= <-]. unfold dimCapacity. cbn [values_ varStarts_]. split; [reflexivity | lia].
Qed.

(** ** Calls keep the invariant *)

Lemma reserve_keeps (nVars : Index) (totalDims : size_t) (v : VectorValues) :
  in_size_t totalDims -> Inv v -> bounded v ->
  Inv (snd (reserve nVars totalDims v)) /\ bounded (snd (reserve nVars totalDims v)).
Proof.
  intros Ht [Hh Hnd Hd] [Hcount Hcap]. rewrite reserve_unfold. cbn [snd].
  pose proof (vsize_nonneg (values_ v)).
  assert (Hnew : dimCapacity {| values_ := resize_preserve (values_ v)
                                   (Z.max totalDims (vsize (values_ v)));
                                varStarts_ := varStarts_ v |}
                 = Z.max totalDims (vsize (values_ v))).
  { unfold dimCapacity. cbn [values_]. apply vsize_resize_preserve. lia. }
  split; [split|split]; try assumption.
  - rewrite Hnew. unfold dim in *. cbn [varStarts_]. unfold dimCapacity in Hd. lia.
  - rewrite Hnew. unfold in_size_t, dimCapacity in *. lia.
Qed.

Lemma assign_block_keeps (variable : Index) (vector : Vector) (v v' : VectorValues) :
  Inv v -> bounded v -> assign_block variable vector v = (Ok tt, v') ->
  Inv v' /\ bounded v'.
Proof.
  intros HInv [Hcount Hcap]. rewrite assign_block_unfold.
  destruct (operator_index v variable) as [r|e] eqn:Hop; [|discriminate].
  destruct (range_assign (values_ v) r vector) as [data|e] eqn:Has; [|discriminate].
  intros [= <-].
  unfold operator_index in Hop.
  destruct (checkVariable v variable); [|discriminate]. cbn [rbind] in Hop.
  apply project_inv in Hop. destruct Hop as (Hab & Hb & Hstart & Hsize).
  apply range_assign_inv in Has. destruct Has as (Hk & ->).
  pose proof (at_nonneg (varStarts_ v) variable (Inv_first v HInv)
                (Inv_nondecreasing v HInv)) as Ha.
  assert (Hlen : dimCapacity
            {| values_ := take (Z.to_nat (start_ r)) (values_ v) ++ vector
                          ++ drop (Z.to_nat (start_ r + size_ r)) (values_ v);
               varStarts_ := varStarts_ v |} = dimCapacity v).
  { unfold dimCapacity. cbn [values_]. rewrite <- Hk.
    apply vsize_overwrite; lia. }
  destruct HInv as [Hh Hnd Hd].
  split; [split|split]; try assumption.
  - rewrite Hlen. exact Hd.
  - rewrite Hlen. exact Hcap.
Qed.

Lemma push_back_preallocated_keeps (vector : Vector) (v v' : VectorValues) (var : Index) :
  in_size_t (vsize vector) -> Inv v -> bounded v ->
  push_back_preallocated vector v = (Ok var, v') ->
  Inv v' /\ bounded v'.
Proof.
  intros Hk HInv [Hcount Hcap] Hrun.
  pose proof (Inv_length_pos v HInv) as Hpos.
  pose proof (Inv_dim_nonneg v HInv) as Hdim.
  pose proof (Inv_dim v HInv) as Hfit.
  (* the table was not full, or the block index check would have failed *)
  assert (Hstrict : Z.of_nat (length (varStarts_ v)) < SIZE_MOD).
  { destruct (Z_lt_le_dec (Z.of_nat (length (varStarts_ v))) SIZE_MOD) as [|Hfull];
      [assumption|]. exfalso.
    rewrite push_back_preallocated_unfold, assign_block_unfold in Hrun.
    unfold operator_index, checkVariable in Hrun.
    replace (wrap (Z.of_nat (length (varStarts_ (pushed vector v))) - 1)) with 0 in Hrun.
    - pose proof (wrap_in_size_t (Z.of_nat (length (varStarts_ v)) - 1)) as Hs.
      fold (size v) in Hs. unfold in_size_t in Hs.
      destruct (Z.ltb_spec (size v) 0); [lia|]. discriminate.
    - unfold pushed. cbn [varStarts_]. rewrite length_app. cbn [length].
      replace (Z.of_nat (length (varStarts_ v) + 1) - 1) with SIZE_MOD by lia.
      reflexivity. }
  (* the block fits, or the range check would have failed *)
  destruct (Z_le_gt_dec (dim v + vsize vector) (dimCapacity v)) as [Hroom|Hroom].
  - rewrite (push_back_preallocated_Ok v vector HInv Hstrict Hcap Hroom) in Hrun.
    injection Hrun as _ <-.
    split; [split|split].
    + cbn [varStarts_]. pose proof (Inv_first v HInv) as Hh.
      destruct (varStarts_ v); [discriminate Hh | exact Hh].
    + cbn [varStarts_]. apply nondecreasing_snoc.
      * exact (Inv_nondecreasing v HInv).
      * fold (dim v). pose proof (vsize_nonneg vector). lia.
      * apply Inv_nonempty, HInv.
    + unfold dim at 1. unfold dimCapacity at 1. cbn [varStarts_ values_].
      rewrite back_snoc.
      rewrite vsize_overwrite; [exact Hroom | lia | exact Hroom].
    + cbn [varStarts_]. rewrite length_app. cbn [length]. lia.
    + unfold dimCapacity at 1. cbn [values_].
      rewrite vsize_overwrite; [exact Hcap | lia | exact Hroom].
  - rewrite (push_back_preallocated_Err v vector) in Hrun;
      [discriminate | assumption || lia ..].
Qed.

Lemma exec_keeps (c : call) (v v' : VectorValues) :
  call_typed c -> Inv v -> bounded v -> exec c v = (Ok tt, v') ->
  Inv v' /\ bounded v'.
Proof.
  intros Hty HInv Hb Hrun. destruct c as [n t | vector | i vector | | alpha | alpha x];
    cbn [exec call_typed] in *.
  - destruct Hty as [_ Ht]. rewrite reserve_unfold in Hrun. injection Hrun as <-.
    exact (reserve_keeps n t v Ht HInv Hb).
  - unfold bind, ret in Hrun.
    destruct (push_back_preallocated vector v) as [[var|e] v1] eqn:Hpush;
      [|discriminate].
    injection Hrun as <-.
    exact (push_back_preallocated_keeps vector v v1 var Hty HInv Hb Hpush).
  - exact (assign_block_keeps i vector v v' HInv Hb Hrun).
  - injection Hrun as <-. destruct HInv as [Hh Hnd Hd], Hb as [Hcount Hcap].
    assert (Hlen : dimCapacity {| values_ := replicate (length (values_ v)) 0%float;
                                  varStarts_ := varStarts_ v |} = dimCapacity v).
    { unfold dimCapacity, vsize. cbn [values_]. rewrite length_replicate. reflexivity. }
    split; [split|split]; try assumption; rewrite Hlen; assumption.
  - injection Hrun as <-. destruct HInv as [Hh Hnd Hd], Hb as [Hcount Hcap].
    assert (Hlen : dimCapacity {| values_ := Vector_scal alpha (values_ v);
                                  varStarts_ := varStarts_ v |} = dimCapacity v).
    { unfold dimCapacity, vsize, Vector_scal. cbn [values_].
      rewrite length_map. reflexivity. }
    split; [split|split]; try assumption; rewrite Hlen; assumption.
  - unfold axpy, bind, get, lift, put, Vector_axpy in Hrun.
    destruct (Z.eqb_spec (vsize (values_ x)) (vsize (values_ v))) as [Hsz|];
      [|discriminate].
    injection Hrun as <-. destruct HInv as [Hh Hnd Hd], Hb as [Hcount Hcap].
    assert (Hlen : dimCapacity
              {| values_ := zip_with (fun xi yi => (yi + alpha * xi)%float)
                              (values_ x) (values_ v);
                 varStarts_ := varStarts_ v |} = dimCapacity v).
    { unfold dimCapacity, vsize in *. cbn [values_].
      rewrite length_zip_with. lia. }
    split; [split|split]; try assumption; rewrite Hlen; assumption.
Qed.

Lemma operator_plus_keeps (a c r : VectorValues) :
  Inv a -> bounded a -> operator_plus a c = Ok r -> Inv r /\ bounded r.
Proof.
  intros HInv [Hcount Hcap]. unfold operator_plus.
  destruct (bool_decide (varStarts_ a = varStarts_ c)) eqn:Hsame; [|discriminate].
  apply bool_decide_eq_true in Hsame. rewrite <- Hsame.
  destruct (project (values_ a) 0 (back (varStarts_ a))) as [r1|] eqn:H1;
    [|discriminate].
  destruct (project (values_ c) 0 (back (varStarts_ a))) as [r2|] eqn:H2;
    [|discriminate].
  cbn [rbind]. unfold Vector_add.
  destruct (Z.eqb_spec (vsize (range_read (values_ a) r1))
                       (vsize (range_read (values_ c) r2))) as [Hsz|];
    [|discriminate].
  cbn [rbind]. intros [= <-].
  apply project_inv in H1. destruct H1 as (H1a & H1b & H1s & H1n).
  apply project_inv in H2. destruct H2 as (H2a & H2b & H2s & H2n).
  assert (Hlen : dimCapacity
            {| values_ := zip_with (fun ai bi => (ai + bi)%float)
                            (range_read (values_ a) r1) (range_read (values_ c) r2);
               varStarts_ := varStarts_ a |} = dim a).
  { unfold dimCapacity, dim. cbn [values_].
    assert (E1 : vsize (range_read (values_ a) r1) = size_ r1)
      by (apply vsize_range_read; lia).
    unfold vsize in *. rewrite length_zip_with. lia. }
  destruct HInv as [Hh Hnd Hd].
  split; [split|split]; try assumption.
  - rewrite Hlen. unfold dim. cbn [varStarts_]. lia.
  - rewrite Hlen. unfold dimCapacity in Hcap. unfold dim. lia.
Qed.

(** ** Every container the interface builds *)

Lemma reachable_Inv_bounded (v : VectorValues) :
  reachable v -> Inv v /\ bounded v.
Proof.
  induction 1 as [ | uninit D HD | uninit n d Hn Hd Hlen Hsum | D values v HD Hv
                   | V HV IH | uninit V HV IH | a c r Ha IHa Hc IHc Hr
                   | c v v' Hv IH Hty Hrun ].
  - split; [split; [reflexivity | exact I | vm_compute; discriminate]
           | split; [vm_compute; discriminate | reflexivity]].
  - pose proof (VectorValues_dims_varStarts uninit D HD).
    pose proof (VectorValues_dims_dimCapacity uninit D HD).
    split; [eapply Inv_of_running_sum | eapply bounded_of_running_sum];
      try eassumption. apply HD.
  - pose proof (valid_dims_replicate n d Hn Hd Hlen Hsum) as HD.
    pose proof (VectorValues_dims_varStarts uninit _ HD) as Hs.
    pose proof (VectorValues_dims_dimCapacity uninit _ HD) as Hc.
    rewrite <- (varStarts_uniform_dims uninit uninit n d Hn Hlen) in Hs.
    assert (Hc' : dimCapacity (VectorValues_uniform uninit n d)
                  = total (replicate (Z.to_nat n) d)).
    { rewrite <- Hc. unfold dimCapacity, VectorValues_uniform, VectorValues_dims.
      cbn [values_].
      pose proof (varStarts_uniform_dims uninit uninit n d Hn Hlen) as E.
      unfold VectorValues_uniform, VectorValues_dims in E. cbn [varStarts_] in E.
      rewrite E. reflexivity. }
    split; [eapply Inv_of_running_sum | eapply bounded_of_running_sum];
      try eassumption. apply HD.
  - destruct (VectorValues_values_inv D values v HD Hv) as [Hs Hc].
    split; [eapply Inv_of_running_sum | eapply bounded_of_running_sum];
      try eassumption. apply HD.
  - destruct IH as [[Hh Hnd Hd] Hb]. split; [split|]; assumption.
  - destruct IH as [HInv [Hcount Hcap]].
    pose proof (Inv_dim_nonneg V HInv) as Hdim. pose proof (Inv_dim V HInv) as Hfit.
    assert (Hlen : dimCapacity (SameStructure uninit V) = dim V).
    { unfold dimCapacity, SameStructure. cbn [values_].
      apply vsize_resize_discard. exact Hdim. }
    destruct HInv as [Hh Hnd Hd].
    split; [split|split]; try assumption.
    + rewrite Hlen. unfold dim. cbn [SameStructure varStarts_]. lia.
    + rewrite Hlen. lia.
  - destruct IHa as [HIa Hba]. exact (operator_plus_keeps a c r HIa Hba Hr).
  - destruct IH as [HInv Hb]. exact (exec_keeps c v v' Hty HInv Hb Hrun).
Qed.

(** C4, as the code has it.  Every container built through the public
    interface by calls that return normally, the constructors taking
    dimension lists whose sum is a [size_t], has [boundaries[0] == 0], a
    non-decreasing boundary list and [dim() <= dimCapacity()]. *)
Theorem reachable_Inv (v : VectorValues) :
  reachable v ->
  head (varStarts_ v) = Some 0
  /\ nondecreasing (varStarts_ v)
  /\ dim v <= dimCapacity v.
Proof.
  intros Hv. destruct (reachable_Inv_bounded v Hv) as [[Hh Hnd Hd] _]. auto.
Qed.

(** The witness: [reserve(1, 3)] and one append on an empty container. *)
Lemma reachable_Inv_witness :
  reachable slack_a
  /\ head (varStarts_ slack_a) = Some 0
  /\ nondecreasing (varStarts_ slack_a)
  /\ dim slack_a <= dimCapacity slack_a.
Proof.
  assert (H : reachable slack_a).
  { apply (reach_call (call_push_back_preallocated [1; 2]%float)
             (snd (reserve 1 3 VectorValues_default))).
    - apply (reach_call (call_reserve 1 3) VectorValues_default).
      + exact reach_default.
      + repeat split; (vm_compute; discriminate) || reflexivity.
      + reflexivity.
    - split; [vm_compute; discriminate | reflexivity].
    - reflexivity. }
  split; [exact H | exact (reachable_Inv slack_a H)].
Defined.

(** C4 fails as stated, in two places.  The constructor wraps the running
    sum of its dimensions around [2^64]: on [[2^63; 2^63]] it returns the
    boundaries [[0; 2^63; 0]], which decrease.  And an append that does not
    fit fails after it pushed its boundary: in the container left behind,
    [dim()] is 2 over a capacity of 1. *)
Lemma public_interface_breaks_Inv :
  (let v := VectorValues_dims no_garbage [2 ^ 63; 2 ^ 63] in
   varStarts_ v = [0; 2 ^ 63; 0] /\ ~ nondecreasing (varStarts_ v))
  /\ (let v := snd (reserve 1 1 VectorValues_default) in
      exists (e : error) (v' : VectorValues),
        push_back_preallocated [1; 2]%float v = (Err e, v')
        /\ dim v' = 2 /\ dimCapacity v' = 1
        /\ ~ dim v' <= dimCapacity v').
Proof.
  cbv zeta. split.
  - split; [reflexivity|]. vm_compute. intros [_ [H _]]. apply H. reflexivity.
  - exists bad_index, {| values_ := [0%float]; varStarts_ := [0; 2] |}.
    repeat split. vm_compute. intros H. apply H. reflexivity.
Qed.

End Invariant.
Section Structure.

(** X1. [SameStructure(v)] has the boundary list of [v], hence its [size()]
    and [dim()], over fresh storage of exactly [dim()] entries. *)
Theorem SameStructure_spec (uninit : garbage) (v : VectorValues) :
  varStarts_ (SameStructure uninit v) = varStarts_ v
  /\ size (SameStructure uninit v) = size v
  /\ dim (SameStructure uninit v) = dim v
  /\ (0 <= dim v -> dimCapacity (SameStructure uninit v) = dim v).
Proof.
  repeat split. intros Hdim. unfold dimCapacity, SameStructure. cbn [values_].
  apply vsize_resize_discard, Hdim.
Qed.

(** X2. [makeZero()] overwrites the whole storage, slack capacity included,
    with zeros, and changes neither the capacity nor the boundaries. *)
Theorem makeZero_spec (v : VectorValues) :
  let v' := snd (makeZero v) in
  fst (makeZero v) = Ok tt
  /\ varStarts_ v' = varStarts_ v
  /\ dimCapacity v' = dimCapacity v
  /\ forall (i : nat) (x : float), values_ v' !! i = Some x -> x = 0%float.
Proof.
  cbv zeta. cbn. unfold dimCapacity, vsize. cbn [values_].
  rewrite length_replicate. repeat split.
  intros i x Hx. apply lookup_replicate in Hx. tauto.
Qed.

(** X3. [a + c] on containers with one boundary list, each holding its used
    range, is a container with that boundary list whose storage is the
    entry-wise sum of the two used ranges; on different boundary lists the
    assertion fails. *)
Theorem operator_plus_spec (a c : VectorValues) :
  (varStarts_ a = varStarts_ c ->
   0 <= dim a <= dimCapacity a -> dim c <= dimCapacity c ->
   operator_plus a c
   = Ok {| values_ := zip_with (fun ai bi => (ai + bi)%float) (used a) (used c);
           varStarts_ := varStarts_ a |})
  /\ (varStarts_ a <> varStarts_ c ->
      operator_plus a c = Err (assertion_failed "varStarts_ == c.varStarts_")).
Proof.
  unfold operator_plus. split.
  - intros Hsame [Hdim Ha] Hc.
    rewrite bool_decide_eq_true_2 by exact Hsame.
    assert (Hdc : dim c = dim a) by (unfold dim; rewrite Hsame; reflexivity).
    fold (dim a) (dim c). unfold dimCapacity in *.
    rewrite !project_Ok by lia. cbn [rbind]. unfold Vector_add.
    assert (Hra : range_read (values_ a) {| start_ := 0; size_ := dim a - 0 |} = used a).
    { unfold range_read, used. cbn [start_ size_]. rewrite drop_0.
      do 2 f_equal. lia. }
    assert (Hrc : range_read (values_ c) {| start_ := 0; size_ := dim c - 0 |} = used c).
    { unfold range_read, used. cbn [start_ size_]. rewrite drop_0.
      do 2 f_equal. lia. }
    rewrite Hra, Hrc.
    assert (Hsz : vsize (used a) = vsize (used c)).
    { unfold vsize, used. rewrite !length_take, Hdc. unfold vsize in *. lia. }
    rewrite (proj2 (Z.eqb_eq _ _) Hsz). reflexivity.
  - intros Hne. rewrite bool_decide_eq_false_2 by exact Hne. reflexivity.
Qed.

(** The witness: the container of the spec's example added to itself. *)
Lemma operator_plus_spec_witness :
  operator_plus sample_23 sample_23
  = Ok {| values_ := [2; 4; 6; 8; 10]%float; varStarts_ := [0; 2; 5] |}.
Proof.
  apply (proj1 (operator_plus_spec sample_23 sample_23)).
  - reflexivity.
  - split; vm_compute; discriminate.
  - vm_compute. discriminate.
Defined.

(** ** The examples of the spec, run *)

(** Dimensions [[2, 3]] with values [[1,2, 3,4,5]]: two blocks, [dim()] 5,
    block 0 is [[1,2]] and block 1 is [[3,4,5]]. *)
Example sample_23_blocks :
  VectorValues_values [2; 3] [1; 2; 3; 4; 5]%float = Ok sample_23
  /\ size sample_23 = 2
  /\ dim sample_23 = 5
  /\ block sample_23 0 = Ok [1; 2]%float
  /\ block sample_23 1 = Ok [3; 4; 5]%float
  /\ block sample_23 2 = Err (assertion_failed "variable < varStarts_.size()-1").
Proof. repeat split; reflexivity. Qed.

(** [tight] is what the constructor builds from dimensions [[2]] and
    values [[1, 1]]. *)
Example tight_constructed :
  VectorValues_values [2] [1; 1]%float = Ok tight.
Proof. reflexivity. Qed.

(** [axpy(2.0, X, Y)] with [X = [1,1]] and [Y = [0,0]] in one block of
    dimension 2 leaves [Y = [2,2]]. *)
Example axpy_2 :
  axpy 2 tight {| values_ := [0; 0]%float; varStarts_ := [0; 2] |}
  = (Ok tt, {| values_ := [2; 2]%float; varStarts_ := [0; 2] |}).
Proof. reflexivity. Qed.

(** Writing block 1 through [operator[]] changes that block only. *)
Example assign_block_1 :
  assign_block 1 [7; 8; 9]%float sample_23
  = (Ok tt, {| values_ := [1; 2; 7; 8; 9]%float; varStarts_ := [0; 2; 5] |}).
Proof. reflexivity. Qed.

End Structure.

Section Traversal.

Lemma advance_begin (n : nat) (a : address) :
  advance n (begin_ a) = {| config_ := a; curVariable_ := wrap (Z.of_nat n) |}.
Proof.
  unfold advance. induction n as [|n IH].
  - reflexivity.
  - rewrite Nat.iter_succ, IH. unfold prefix_incr. cbn [snd config_ curVariable_].
    f_equal. unfold wrap. rewrite Zplus_mod_idemp_l. f_equal. lia.
Qed.

(** X4. [size()] prefix increments take [begin()] to [end()];
    after [i] of them the iterator dereferences to block [i]; and
    [end() - begin()] is [size()] (as long as it is a positive
    [ptrdiff_t]). *)
Theorem iterator_traversal (mem : memory) (a : address) :
  advance (Z.to_nat (size (mem a))) (begin_ a) = end_ mem a
  /\ iterator_eq (advance (Z.to_nat (size (mem a))) (begin_ a)) (end_ mem a) = Ok true
  /\ (forall i : nat, Z.of_nat i < SIZE_MOD ->
        deref mem (advance i (begin_ a)) = operator_index (mem a) (Z.of_nat i))
  /\ (size (mem a) < 2 ^ 63 ->
        iterator_diff (end_ mem a) (begin_ a) = Ok (size (mem a))).
Proof.
  pose proof (wrap_in_size_t (Z.of_nat (length (varStarts_ (mem a))) - 1)) as Hs.
  fold (size (mem a)) in Hs. unfold in_size_t in Hs.
  assert (Hend : advance (Z.to_nat (size (mem a))) (begin_ a) = end_ mem a).
  { rewrite advance_begin, Z2Nat.id by lia.
    rewrite wrap_small by exact Hs. reflexivity. }
  split; [exact Hend|]. split; [|split].
  - rewrite Hend. unfold iterator_eq, checkCompat.
    rewrite Nat.eqb_refl. cbn [rbind]. rewrite Z.eqb_refl. reflexivity.
  - intros i Hi. rewrite advance_begin. unfold deref. cbn [config_ curVariable_].
    rewrite wrap_small by (unfold in_size_t; lia). reflexivity.
  - intros Hsmall. unfold iterator_diff, checkCompat, end_, begin_.
    cbn [config_ curVariable_]. rewrite Nat.eqb_refl. cbn [rbind].
    fold (size (mem a)). rewrite Z.sub_0_r, (wrap_small (size (mem a))) by exact Hs.
    unfold to_ptrdiff. destruct (Z.ltb_spec (size (mem a)) (2 ^ 63)); [reflexivity | lia].
Qed.

End Traversal.
Section Access.

(** ** Reading blocks *)

Lemma operator_index_past_end (v : VectorValues) (i : Index) :
  size v <= i ->
  operator_index v i = Err (assertion_failed "variable < varStarts_.size()-1").
Proof.
  intros Hi. unfold operator_index, checkVariable. fold (size v).
  destruct (Z.ltb_spec i (size v)); [lia | reflexivity].
Qed.

(** X5. On a container that satisfies the invariant, [operator[](i)]
    returns a view exactly for the indices [i < size()], and the view lies
    inside the used range [[0, dim())]; every index from [size()] on fails
    the assertion of [checkVariable], for the view and for its contents
    alike. *)
Theorem operator_index_bounds (v : VectorValues) (i : Index) :
  Inv v -> representable v -> 0 <= i ->
  (i < size v ->
     exists r : range,
       operator_index v i = Ok r
       /\ 0 <= start_ r /\ 0 <= size_ r /\ start_ r + size_ r <= dim v
       /\ block v i = Ok (range_read (values_ v) r)
       /\ vsize (range_read (values_ v) r) = size_ r)
  /\ (size v <= i ->
        operator_index v i = Err (assertion_failed "variable < varStarts_.size()-1")
        /\ block v i = Err (assertion_failed "variable < varStarts_.size()-1")).
Proof.
  intros HInv [Hcount Hcap] Hi. split.
  - intros Hlt.
    destruct (operator_index_Inv v i HInv) as (a & b & _ & _ & Hab & Hbd & Hop);
      [lia | lia |].
    exists {| start_ := a; size_ := b - a |}. cbn [start_ size_].
    pose proof (Inv_dim v HInv) as Hfit.
    repeat split; try lia; try assumption.
    + unfold block. rewrite Hop. reflexivity.
    + apply vsize_range_read; cbn [start_ size_]; unfold dimCapacity in *; lia.
  - intros Hge. unfold block. rewrite operator_index_past_end by assumption.
    split; reflexivity.
Qed.

(** The witness: the second block of [sample_23]. *)
Lemma operator_index_bounds_witness :
  (1 < size sample_23 ->
     exists r : range,
       operator_index sample_23 1 = Ok r
       /\ 0 <= start_ r /\ 0 <= size_ r /\ start_ r + size_ r <= dim sample_23
       /\ block sample_23 1 = Ok (range_read (values_ sample_23) r)
       /\ vsize (range_read (values_ sample_23) r) = size_ r)
  /\ (size sample_23 <= 1 ->
        operator_index sample_23 1 = Err (assertion_failed "variable < varStarts_.size()-1")
        /\ block sample_23 1 = Err (assertion_failed "variable < varStarts_.size()-1")).
Proof.
  apply (operator_index_bounds sample_23 1).
  - split; [reflexivity | vm_compute; repeat split; discriminate
            | vm_compute; discriminate].
  - split; reflexivity.
  - vm_compute. discriminate.
Defined.

(** ** The blocks tile the used range *)

Lemma take_add (A : Type) (n m : nat) (l : list A) :
  take (n + m) l = take n l ++ take m (drop n l).
Proof.
  revert l. induction n as [|n IH]; intros l.
  - reflexivity.
  - destruct l as [|x l]; [rewrite drop_nil, !take_nil; reflexivity|].
    cbn [Nat.add take drop app]. f_equal. apply IH.
Qed.

Lemma length_slices (starts : list size_t) (data : Vector) :
  length (slices starts data) = (length starts - 1)%nat.
Proof.
  induction starts as [|a starts IH]; [reflexivity|].
  destruct starts as [|b starts]; [reflexivity|].
  cbn [slices length] in *. rewrite IH. lia.
Qed.

Lemma slices_lookup (starts : list size_t) (data : Vector) (i : nat) (a b : size_t) :
  starts !! i = Some a -> starts !! S i = Some b ->
  slices starts data !! i = Some (range_read data {| start_ := a; size_ := b - a |}).
Proof.
  revert i. induction starts as [|x starts IH]; intros i Ha Hb; [discriminate|].
  destruct starts as [|y starts]; [discriminate|].
  destruct i as [|i].
  - cbn in Ha, Hb. injection Ha as ->. injection Hb as ->. reflexivity.
  - cbn [slices]. change ((y :: starts) !! i = Some a) in Ha.
    change ((y :: starts) !! S i = Some b) in Hb.
    exact (IH i Ha Hb).
Qed.

Lemma concat_slices (starts : list size_t) (data : Vector) (a : size_t) :
  head starts = Some a -> 0 <= a -> nondecreasing starts ->
  concat (slices starts data)
  = take (Z.to_nat (back starts - a)) (drop (Z.to_nat a) data).
Proof.
  revert a. induction starts as [|x starts IH]; intros a Hh Ha Hnd; [discriminate|].
  cbn in Hh. injection Hh as ->.
  destruct starts as [|y starts].
  - unfold back. cbn. rewrite Z.sub_diag. reflexivity.
  - destruct Hnd as [Hay Hnd].
    assert (Hby : y <= back (y :: starts)).
    { pose proof (back_lookup (y :: starts)) as Hl.
      apply (nondecreasing_lookup (y :: starts) 0 (length (y :: starts) - 1) _ _ Hnd);
        [reflexivity | apply Hl; discriminate | lia]. }
    change (slices (a :: y :: starts) data)
      with (range_read data {| start_ := a; size_ := y - a |}
            :: slices (y :: starts) data).
    rewrite concat_cons, (IH y) by (reflexivity || lia || assumption).
    change (back (a :: y :: starts)) with (back (y :: starts)).
    unfold range_read. cbn [start_ size_].
    replace (Z.to_nat (back (y :: starts) - a))
      with (Z.to_nat (y - a) + Z.to_nat (back (y :: starts) - y))%nat by lia.
    rewrite take_add, drop_drop. do 3 f_equal. lia.
Qed.

(** X6. The blocks of a container that satisfies the invariant tile its
    used range: there are [size()] of them, and read through
    [operator[]] in index order and put end to end they are the entries
    [[0, dim())] of the storage. *)
Theorem blocks_tile_used_range (v : VectorValues) :
  Inv v -> representable v ->
  exists bs : list (list float),
    Z.of_nat (length bs) = size v
    /\ (forall (i : nat) (b : list float),
          bs !! i = Some b -> block v (Z.of_nat i) = Ok b)
    /\ concat bs = used v.
Proof.
  intros HInv [Hcount Hcap].
  pose proof (Inv_length_pos v HInv) as Hpos.
  exists (slices (varStarts_ v) (values_ v)). split; [|split].
  - rewrite length_slices, (size_exact v HInv Hcount). lia.
  - intros i b Hb.
    pose proof (lookup_lt_Some _ _ _ Hb) as Hi. rewrite length_slices in Hi.
    destruct (operator_index_Inv v (Z.of_nat i) HInv) as (x & y & Hx & Hy & _ & _ & Hop).
    + lia.
    + rewrite (size_exact v HInv Hcount). lia.
    + rewrite Nat2Z.id in Hx, Hy.
      rewrite (slices_lookup _ _ _ _ _ Hx Hy) in Hb. injection Hb as <-.
      unfold block. rewrite Hop. reflexivity.
  - rewrite (concat_slices _ _ 0 (Inv_first v HInv)) by (lia || apply HInv).
    unfold used, dim. rewrite Z.sub_0_r. reflexivity.
Qed.

(** The witness: [sample_23]. *)
Lemma blocks_tile_used_range_witness :
  exists bs : list (list float),
    Z.of_nat (length bs) = size sample_23
    /\ (forall (i : nat) (b : list float),
          bs !! i = Some b -> block sample_23 (Z.of_nat i) = Ok b)
    /\ concat bs = used sample_23.
Proof.
  apply (blocks_tile_used_range sample_23).
  - split; [reflexivity | vm_compute; repeat split; discriminate
            | vm_compute; discriminate].
  - split; reflexivity.
Defined.

End Access.
Section BlockWrite.

(** A range that starts behind the overwritten one reads as before. *)
Lemma range_read_above (data vector : Vector) (r : range) (a : size_t) :
  0 <= a -> a + vsize vector <= vsize data -> a + vsize vector <= start_ r ->
  range_read (take (Z.to_nat a) data ++ vector
              ++ drop (Z.to_nat (a + vsize vector)) data) r
  = range_read data r.
Proof.
  unfold vsize, range_read. intros Ha Hle Hr. f_equal.
  rewrite app_assoc.
  rewrite drop_app_ge by (rewrite length_app, length_take; lia).
  rewrite length_app, length_take, drop_drop. f_equal. lia.
Qed.

Lemma overwrite_lookup_outside (data vector : Vector) (a : size_t) (k : nat) :
  0 <= a -> a + vsize vector <= vsize data ->
  Z.of_nat k < a \/ a + vsize vector <= Z.of_nat k ->
  (take (Z.to_nat a) data ++ vector
   ++ drop (Z.to_nat (a + vsize vector)) data) !! k = data !! k.
Proof.
  unfold vsize. intros Ha Hle [Hk|Hk].
  - rewrite lookup_app_l by (rewrite length_take; lia).
    apply lookup_take_lt. lia.
  - rewrite app_assoc.
    rewrite lookup_app_r by (rewrite length_app, length_take; lia).
    rewrite length_app, length_take, lookup_drop. f_equal. lia.
Qed.

(** X7. Writing a vector through [operator[](i)] on a container that
    satisfies the invariant.  If the vector has the dimension of block
    [i], the write succeeds: block [i] then reads as the vector, every
    other block, every storage entry outside the block, the boundary list
    and the capacity are as before.  If it has another size the write
    fails on the size check, and if [i] is not below [size()] it fails the
    assertion of [checkVariable]; the container is unchanged in both
    cases. *)
Theorem assign_block_spec (v : VectorValues) (i : Index) (vector : Vector) :
  Inv v -> representable v -> 0 <= i ->
  (forall r : range, operator_index v i = Ok r -> vsize vector = size_ r ->
     exists v' : VectorValues,
       assign_block i vector v = (Ok tt, v')
       /\ varStarts_ v' = varStarts_ v
       /\ dimCapacity v' = dimCapacity v
       /\ block v' i = Ok vector
       /\ (forall j : Index, 0 <= j < size v -> j <> i -> block v' j = block v j)
       /\ (forall k : nat,
             Z.of_nat k < start_ r \/ start_ r + size_ r <= Z.of_nat k ->
             values_ v' !! k = values_ v !! k))
  /\ (forall r : range, operator_index v i = Ok r -> vsize vector <> size_ r ->
        assign_block i vector v = (Err bad_size, v))
  /\ (size v <= i ->
        assign_block i vector v
        = (Err (assertion_failed "variable < varStarts_.size()-1"), v)).
Proof.
  intros HInv [Hcount Hcap] Hi.
  pose proof (Inv_dim v HInv) as Hfit. split; [|split].
  - intros r Hop Hsz.
    destruct (Z_lt_le_dec i (size v)) as [Hlt|Hge];
      [|rewrite operator_index_past_end in Hop by assumption; discriminate].
    destruct (operator_index_Inv v i HInv) as (a & b & Ha & Hb & Hab & Hbd & Hop');
      [lia | lia |].
    rewrite Hop' in Hop. injection Hop as <-. cbn [start_ size_] in *.
    rewrite assign_block_unfold, Hop', range_assign_Ok by exact Hsz.
    cbn [start_ size_]. rewrite <- Hsz. eexists. split; [reflexivity|].
    set (v' := {| values_ := _; varStarts_ := _ |}).
    assert (Hcap' : dimCapacity v' = dimCapacity v).
    { unfold dimCapacity, v'. cbn [values_].
      apply vsize_overwrite; unfold dimCapacity in *; lia. }
    assert (Hsize' : size v' = size v) by reflexivity.
    assert (Hidx : forall (n : nat) (c d : size_t),
              varStarts_ v !! n = Some c -> varStarts_ v !! S n = Some d ->
              c <= d -> d <= dim v ->
              operator_index v' (Z.of_nat n) = Ok {| start_ := c; size_ := d - c |}).
    { intros n c d Hc Hd Hcd Hdd. apply operator_index_Ok.
      - change (varStarts_ v') with (varStarts_ v). lia.
      - exact Hc.
      - exact Hd.
      - exact Hcd.
      - rewrite Hcap'. lia. }
    split; [reflexivity|]. split; [exact Hcap'|]. split; [|split].
    + unfold block. rewrite <- (Z2Nat.id i) at 1 by lia.
      rewrite (Hidx _ a b Ha Hb) by lia.
      cbn [rbind]. f_equal. replace (b - a) with (vsize vector) by lia.
      unfold v'. cbn [values_].
      apply range_read_overwrite; unfold dimCapacity in *; lia.
    + intros j Hj Hne.
      destruct (operator_index_Inv v j HInv) as (c & d & Hc & Hd & Hcd & Hdd & Hopj);
        [lia | lia |].
      unfold block. rewrite Hopj. rewrite <- (Z2Nat.id j) at 1 by lia.
      rewrite (Hidx _ c d Hc Hd) by lia.
      cbn [rbind]. f_equal. unfold v'. cbn [values_].
      destruct (Z_lt_le_dec j i) as [Hji|Hij].
      * (* a block before block i ends where block i starts, or earlier *)
        assert (d <= a).
        { apply (nondecreasing_lookup _ (S (Z.to_nat j)) (Z.to_nat i) _ _
                   (Inv_nondecreasing v HInv) Hd Ha). lia. }
        apply range_read_below; cbn [start_ size_]; unfold dimCapacity in *; lia.
      * (* a block behind block i starts where block i ends, or later *)
        assert (b <= c).
        { apply (nondecreasing_lookup _ (S (Z.to_nat i)) (Z.to_nat j) _ _
                   (Inv_nondecreasing v HInv) Hb Hc). lia. }
        apply range_read_above; cbn [start_ size_]; unfold dimCapacity in *; lia.
    + intros k Hk. unfold v'. cbn [values_].
      apply overwrite_lookup_outside; unfold dimCapacity in *; lia.
  - intros r Hop Hsz. rewrite assign_block_unfold, Hop.
    unfold range_assign. rewrite (proj2 (Z.eqb_neq _ _) Hsz). reflexivity.
  - intros Hge. rewrite assign_block_unfold, operator_index_past_end by assumption.
    reflexivity.
Qed.

(** The witness: the first block of [sample_23] is overwritten. *)
Lemma assign_block_spec_witness :
  exists v' : VectorValues,
    assign_block 0 [8; 9]%float sample_23 = (Ok tt, v')
    /\ block v' 0 = Ok [8; 9]%float
    /\ block v' 1 = block sample_23 1.
Proof.
  destruct (assign_block_spec sample_23 0 [8; 9]%float) as [Hwrite _].
  - split; [reflexivity | vm_compute; repeat split; discriminate
            | vm_compute; discriminate].
  - split; reflexivity.
  - vm_compute. discriminate.
  - destruct (Hwrite {| start_ := 0; size_ := 2 |}) as (v' & Hrun & _ & _ & Hb & Hothers & _).
    + reflexivity.
    + reflexivity.
    + exists v'. split; [exact Hrun|]. split; [exact Hb|].
      apply Hothers; [split; vm_compute; [discriminate | reflexivity] | discriminate].
Defined.

End BlockWrite.
Section Building.

(** ** The constructor from dimensions and values *)

Lemma VectorValues_values_Ok (D : list size_t) (values : Vector) :
  valid_dims D -> vsize values = total D ->
  VectorValues_values D values
  = Ok {| values_ := values; varStarts_ := 0 :: running_sum 0 D |}.
Proof.
  intros HD Hsz. pose proof (VectorValues_dims_varStarts no_garbage D HD) as Hstarts.
  unfold VectorValues_values, VectorValues_dims in *. cbn [varStarts_] in Hstarts.
  rewrite Hstarts, back_running_sum.
  rewrite (proj2 (Z.eqb_eq (0 + total D) (vsize values))) by lia. reflexivity.
Qed.

(** X8. For a valid dimension list [D], the constructor from [D] and a
    flat vector succeeds exactly when the vector has [sum(D)] entries.
    The container then holds the vector verbatim under the running sums
    of [D], and block [i] is the slice of [D[i]] entries that starts at
    the sum of the dimensions before it; with any other length the
    assertion of the constructor fails. *)
Theorem VectorValues_values_spec (D : list size_t) (values : Vector) :
  valid_dims D ->
  (vsize values = total D ->
     let v := {| values_ := values; varStarts_ := 0 :: running_sum 0 D |} in
     VectorValues_values D values = Ok v
     /\ forall (i : nat) (d : size_t), D !! i = Some d ->
          block v (Z.of_nat i)
          = Ok (take (Z.to_nat d) (drop (Z.to_nat (total (take i D))) values)))
  /\ (vsize values <> total D ->
        VectorValues_values D values
        = Err (assertion_failed "varStarts_.back() == values.size()")).
Proof.
  intros HD. split.
  - intros Hsz. cbv zeta. split; [apply VectorValues_values_Ok; assumption|].
    destruct HD as (Hpos & Hsum & Hlen). intros i d Hi.
    pose proof (lookup_lt_Some _ _ _ Hi) as Hlt.
    pose proof (total_take_le D i Hpos) as Hti.
    pose proof (total_take_le D (S i) Hpos) as HtSi.
    assert (HSi : total (take (S i) D) = total (take i D) + d).
    { rewrite (take_S_r _ _ _ Hi), total_app. unfold total. simpl. lia. }
    assert (Hd : 0 <= d).
    { rewrite Forall_lookup in Hpos. exact (Hpos _ _ Hi). }
    unfold block.
    rewrite (operator_index_Ok _ i (total (take i D)) (total (take (S i) D))).
    + cbn [rbind]. unfold range_read. cbn [start_ size_ values_].
      do 3 f_equal. lia.
    + cbn [varStarts_ length]. rewrite length_running_sum. lia.
    + cbn [varStarts_]. rewrite running_sum_lookup by lia. f_equal.
    + cbn [varStarts_]. rewrite running_sum_lookup by lia. f_equal.
    + lia.
    + unfold dimCapacity. cbn [values_]. lia.
  - intros Hsz. pose proof (VectorValues_dims_varStarts no_garbage D HD) as Hstarts.
    unfold VectorValues_values, VectorValues_dims in *. cbn [varStarts_] in Hstarts.
    rewrite Hstarts, back_running_sum.
    rewrite (proj2 (Z.eqb_neq (0 + total D) (vsize values))) by lia. reflexivity.
Qed.

(** The witness: the example of the spec. *)
Lemma VectorValues_values_spec_witness :
  VectorValues_values [2; 3] [1; 2; 3; 4; 5]%float = Ok sample_23
  /\ block sample_23 1 = Ok [3; 4; 5]%float.
Proof.
  assert (HD : valid_dims [2; 3]).
  { split; [repeat constructor; lia | split; reflexivity]. }
  destruct (VectorValues_values_spec [2; 3] [1; 2; 3; 4; 5]%float HD) as [H _].
  destruct (H eq_refl) as [Hv Hb].
  split; [exact Hv | exact (Hb 1%nat 3 eq_refl)].
Defined.

(** ** Assembling a container block by block *)

Lemma indices_S (first : Index) (count : nat) :
  indices first (S count) = first :: indices (first + 1) count.
Proof.
  unfold indices. cbn [seq map]. f_equal; [lia|].
  rewrite <- fmap_S_seq. rewrite map_map. apply map_ext. intros k. lia.
Qed.

Lemma vsize_concat (bs : list (list float)) :
  vsize (concat bs) = total (map vsize bs).
Proof.
  unfold vsize, total. induction bs as [|b bs IH]; [reflexivity|].
  rewrite concat_cons, length_app. cbn [map foldr]. lia.
Qed.

Lemma total_vsize_nonneg (bs : list (list float)) : 0 <= total (map vsize bs).
Proof. rewrite <- vsize_concat. apply vsize_nonneg. Qed.

Lemma append_after_append (A : Type) (data b c : list A) (d t : nat) :
  (d + length b + t <= length data)%nat ->
  take (d + length b) (take d data ++ b ++ drop (d + length b) data) ++ c
  ++ drop (d + length b + t) (take d data ++ b ++ drop (d + length b) data)
  = take d data ++ (b ++ c) ++ drop (d + (length b + t)) data.
Proof.
  intros Hle.
  assert (Hlen : length (take d data ++ b) = (d + length b)%nat)
    by (rewrite length_app, length_take; lia).
  rewrite (app_assoc (take d data) b).
  rewrite take_app_length' by (symmetry; exact Hlen).
  rewrite drop_app_ge by lia. rewrite Hlen, drop_drop.
  rewrite <- !app_assoc. do 4 f_equal. lia.
Qed.

Lemma push_back_all_Ok (bs : list (list float)) :
  forall v : VectorValues,
    Inv v ->
    Z.of_nat (length (varStarts_ v)) + Z.of_nat (length bs) < SIZE_MOD ->
    dimCapacity v < SIZE_MOD ->
    dim v + total (map vsize bs) <= dimCapacity v ->
    push_back_all bs v
    = (Ok (indices (size v) (length bs)),
       {| values_ := take (Z.to_nat (dim v)) (values_ v) ++ concat bs
                     ++ drop (Z.to_nat (dim v + total (map vsize bs))) (values_ v);
          varStarts_ := varStarts_ v ++ running_sum (dim v) (map vsize bs) |}).
Proof.
  induction bs as [|b bs IH]; intros v HInv Hcount Hcap Hroom.
  - destruct v as [data starts]. cbn [push_back_all ret concat map running_sum length].
    unfold indices. cbn [seq map values_ varStarts_].
    unfold total. cbn [foldr]. rewrite Z.add_0_r, app_nil_r.
    cbn [app]. rewrite take_drop. reflexivity.
  - pose proof (Inv_dim_nonneg v HInv) as Hdim.
    pose proof (vsize_nonneg b) as Hb.
    pose proof (total_vsize_nonneg bs) as Hrest.
    assert (Hsplit : total (map vsize (b :: bs)) = vsize b + total (map vsize bs))
      by reflexivity.
    cbn [length] in Hcount.
    assert (Hpush := push_back_preallocated_Ok v b HInv).
    rewrite Hsplit in Hroom.
    specialize (Hpush ltac:(lia) Hcap ltac:(lia)).
    cbn [push_back_all]. unfold bind at 1. rewrite Hpush.
    set (v1 := {| values_ := _; varStarts_ := _ |}) in *.
    assert (Hkeep : Inv v1 /\ bounded v1).
    { apply (push_back_preallocated_keeps b v v1 (size v)).
      - unfold in_size_t. lia.
      - exact HInv.
      - split; lia.
      - exact Hpush. }
    destruct Hkeep as [HInv1 [_ Hcap1]].
    assert (Hdim1 : dim v1 = dim v + vsize b).
    { unfold dim, v1. cbn [varStarts_]. apply back_snoc. }
    assert (Hlen1 : length (varStarts_ v1) = S (length (varStarts_ v))).
    { unfold v1. cbn [varStarts_]. rewrite length_app. cbn [length]. lia. }
    assert (Hcapeq : dimCapacity v1 = dimCapacity v).
    { unfold dimCapacity at 1. unfold v1. cbn [values_].
      apply vsize_overwrite; [lia | fold (dimCapacity v); lia]. }
    assert (Hsize1 : size v1 = size v + 1).
    { pose proof (Inv_length_pos v HInv).
      unfold size. rewrite Hlen1.
      rewrite !wrap_small by (unfold in_size_t; lia). lia. }
    unfold bind. rewrite (IH v1 HInv1) by (rewrite ?Hlen1, ?Hdim1, ?Hcapeq; lia).
    unfold ret. cbn [length]. rewrite indices_S, Hsize1, Hdim1.
    f_equal. f_equal.
    + unfold v1. cbn [values_]. rewrite Hsplit.
      set (T := total (map vsize bs)) in *.
      replace (Z.to_nat (dim v + vsize b))
        with (Z.to_nat (dim v) + length b)%nat by (unfold vsize; lia).
      replace (Z.to_nat (dim v + vsize b + T))
        with (Z.to_nat (dim v) + length b + Z.to_nat T)%nat by (unfold vsize; lia).
      replace (Z.to_nat (dim v + (vsize b + T)))
        with (Z.to_nat (dim v) + (length b + Z.to_nat T))%nat by (unfold vsize; lia).
      rewrite concat_cons. apply append_after_append.
      unfold dimCapacity, vsize in *. lia.
    + unfold v1. cbn [varStarts_ map running_sum]. rewrite <- app_assoc. reflexivity.
Qed.

(** X9. Incremental assembly builds what the bulk constructor builds.  On
    an empty container, [reserve(k, T)] followed by the appends of [k]
    blocks that fill the [T] reserved entries succeeds, hands out the
    indices [0 .. k - 1] in order, and leaves the container that the
    constructor from dimensions and values builds from the lengths of the
    blocks and their concatenation. *)
Theorem assembly_matches_constructor (bs : list (list float)) :
  valid_dims (map vsize bs) ->
  exists v : VectorValues,
    (run reserve (Z.of_nat (length bs)) (total (map vsize bs));
     push_back_all bs) VectorValues_default
    = (Ok (indices 0 (length bs)), v)
    /\ VectorValues_values (map vsize bs) (concat bs) = Ok v.
Proof.
  intros HD. pose proof HD as (Hpos & Hsum & Hlen). rewrite length_map in Hlen.
  pose proof (total_vsize_nonneg bs) as Hnn.
  exists {| values_ := concat bs; varStarts_ := 0 :: running_sum 0 (map vsize bs) |}.
  split; [|apply VectorValues_values_Ok; [exact HD | apply vsize_concat]].
  pose proof (vsize_concat bs) as Hcat.
  set (T := total (map vsize bs)) in *.
  unfold bind at 1. rewrite reserve_unfold.
  set (v0 := {| values_ := _; varStarts_ := _ |}).
  assert (Hdata : values_ v0 = replicate (Z.to_nat T) 0%float).
  { unfold v0, resize_preserve. cbn [values_ varStarts_ VectorValues_default].
    change (vsize []) with 0. cbn [length]. rewrite take_nil, Z.max_l by lia.
    cbn [app]. f_equal. lia. }
  assert (Hcap0 : dimCapacity v0 = T).
  { unfold dimCapacity, vsize. rewrite Hdata, length_replicate. lia. }
  assert (Hdim0 : dim v0 = 0) by reflexivity.
  assert (HInv0 : Inv v0).
  { split; [reflexivity | exact I |]. rewrite Hcap0, Hdim0. exact Hnn. }
  rewrite (push_back_all_Ok bs v0 HInv0);
    [ | cbn [v0 varStarts_ VectorValues_default length]; lia
      | rewrite Hcap0; lia
      | rewrite Hcap0, Hdim0; fold T; lia ].
  fold T. rewrite Hdim0, Hdata. change (size v0) with 0.
  f_equal. f_equal.
  - cbn [Z.to_nat take app Z.add].
    rewrite drop_ge by (rewrite length_replicate; lia).
    apply app_nil_r.
Qed.

(** The witness: blocks of 2, 4 and 4 entries after [reserve(3, 10)]. *)
Lemma assembly_matches_constructor_witness :
  exists v : VectorValues,
    (run reserve 3 10;
     push_back_all [[1; 2]; [3; 4; 5; 6]; [7; 8; 9; 10]]%float) VectorValues_default
    = (Ok [0; 1; 2], v)
    /\ VectorValues_values [2; 4; 4] [1; 2; 3; 4; 5; 6; 7; 8; 9; 10]%float = Ok v.
Proof.
  apply (assembly_matches_constructor [[1; 2]; [3; 4; 5; 6]; [7; 8; 9; 10]]%float).
  split; [repeat constructor; vm_compute; discriminate | split; reflexivity].
Defined.

End Building.
Section Capacity.

(** X10. A default-constructed container has no block, no entry and no
    storage: every block index fails the assertion of [checkVariable],
    and an append goes through only for the empty vector; every other
    vector fails on the range check, as the source's comment on the
    default constructor announces ([reserve] first). *)
Theorem VectorValues_default_needs_reserve :
  size VectorValues_default = 0
  /\ dim VectorValues_default = 0
  /\ dimCapacity VectorValues_default = 0
  /\ (forall i : Index, 0 <= i ->
        operator_index VectorValues_default i
        = Err (assertion_failed "variable < varStarts_.size()-1"))
  /\ (forall vector : list float, in_size_t (vsize vector) ->
        (vector = [] ->
           push_back_preallocated vector VectorValues_default
           = (Ok 0, {| values_ := []; varStarts_ := [0; 0] |}))
        /\ (vector <> [] ->
              push_back_preallocated vector VectorValues_default
              = (Err bad_index, pushed vector VectorValues_default))).
Proof.
  split; [reflexivity|]. split; [reflexivity|]. split; [reflexivity|]. split.
  - intros i Hi. apply operator_index_past_end. exact Hi.
  - intros vector Hk. split.
    + intros ->. reflexivity.
    + intros Hne. apply push_back_preallocated_Err.
      * split; [reflexivity | exact I | vm_compute; discriminate].
      * reflexivity.
      * reflexivity.
      * exact Hk.
      * change (dimCapacity VectorValues_default) with 0.
        change (dim VectorValues_default) with 0.
        destruct vector; [congruence|]. unfold vsize. cbn [length]. lia.
Qed.

(** X11. Two calls of [reserve] are one call with the larger hint, and a
    hint that is not above the capacity changes nothing. *)
Theorem reserve_twice (v : VectorValues) (n1 n2 n : Index) (t1 t2 : size_t) :
  snd (reserve n2 t2 (snd (reserve n1 t1 v))) = snd (reserve n (Z.max t1 t2) v)
  /\ (t1 <= dimCapacity v ->
        values_ (snd (reserve n1 t1 v)) = values_ v
        /\ varStarts_ (snd (reserve n1 t1 v)) = varStarts_ v).
Proof.
  rewrite !reserve_unfold. cbn [snd values_ varStarts_].
  pose proof (vsize_nonneg (values_ v)) as Hc. split.
  - f_equal. rewrite vsize_resize_preserve by lia.
    rewrite (resize_preserve_grow (values_ v)) by lia.
    rewrite resize_preserve_grow
      by (unfold vsize; rewrite length_app, length_replicate; unfold vsize in Hc; lia).
    rewrite (resize_preserve_grow (values_ v)) by lia.
    rewrite <- app_assoc, <- replicate_add. do 2 f_equal.
    rewrite length_app, length_replicate. unfold vsize in *. lia.
  - intros Hle. split; [|reflexivity]. unfold dimCapacity in Hle.
    rewrite resize_preserve_grow by lia.
    rewrite Z.max_r by lia. unfold vsize. rewrite Nat2Z.id, Nat.sub_diag.
    apply app_nil_r.
Qed.

End Capacity.
Section IteratorMore.

Lemma wrap_diff_signed (a b : Z) :
  - 2 ^ 63 <= a - b < 2 ^ 63 -> to_ptrdiff (wrap (a - b)) = a - b.
Proof.
  intros H. unfold to_ptrdiff, wrap, SIZE_MOD in *.
  destruct (Z_lt_le_dec (a - b) 0) as [Hneg|Hpos].
  - replace ((a - b) mod 2 ^ 64) with (a - b + 2 ^ 64).
    + destruct (Z.ltb_spec (a - b + 2 ^ 64) (2 ^ 63)); lia.
    + symmetry. rewrite <- (Z.mod_add _ 1) by lia.
      rewrite Z.mul_1_l. apply Z.mod_small. lia.
  - rewrite Z.mod_small by lia.
    destruct (Z.ltb_spec (a - b) (2 ^ 63)); lia.
Qed.

(** X12. Comparing iterators.  On the same container, [==] holds exactly
    when the two positions are equal, [!=] is its negation, and [it - r]
    is the signed distance from [r] to [it], negative when [r] is ahead.
    On different containers [==], [!=] and [-] all fail the assertion of
    [checkCompat]. *)
Theorem iterator_comparison (it r : _impl_iterator) :
  (config_ it = config_ r ->
     iterator_eq it r = Ok (curVariable_ it =? curVariable_ r)
     /\ iterator_ne it r = Ok (negb (curVariable_ it =? curVariable_ r))
     /\ (- 2 ^ 63 <= curVariable_ it - curVariable_ r < 2 ^ 63 ->
           iterator_diff it r = Ok (curVariable_ it - curVariable_ r)))
  /\ (config_ it <> config_ r ->
        iterator_eq it r = Err (assertion_failed "&config_ == &r.config_")
        /\ iterator_ne it r = Err (assertion_failed "&config_ == &r.config_")
        /\ iterator_diff it r = Err (assertion_failed "&config_ == &r.config_")).
Proof.
  unfold iterator_eq, iterator_ne, iterator_diff, checkCompat. split.
  - intros Hsame. rewrite (proj2 (Nat.eqb_eq _ _) Hsame). cbn [rbind].
    repeat split. intros Hd. rewrite wrap_diff_signed by exact Hd. reflexivity.
  - intros Hne. rewrite (proj2 (Nat.eqb_neq _ _) Hne). repeat split.
Qed.

(** The witness: [begin() - end()] on a container of two blocks is [-2]. *)
Lemma iterator_comparison_witness :
  iterator_diff (begin_ 0%nat) (end_ (fun _ => sample_23) 0%nat) = Ok (- 2).
Proof.
  destruct (iterator_comparison (begin_ 0%nat) (end_ (fun _ => sample_23) 0%nat))
    as [Hsame _].
  destruct (Hsame eq_refl) as (_ & _ & Hdiff).
  apply Hdiff. split; vm_compute; [discriminate | reflexivity].
Defined.

(** X13. Moving an iterator there and back.  From a position that is a
    [size_t], [++it] then [--it], [--it] then [++it], and [it += k] then
    [it += -k] all return to the iterator one started from.  One step
    before [begin()] the position is [2^64 - 1]; dereferencing there, like
    dereferencing [end()], fails the assertion of [checkVariable]. *)
Theorem iterator_round_trip (mem : memory) (it : _impl_iterator) (k : ptrdiff_t) :
  in_size_t (curVariable_ it) ->
  snd (prefix_decr (snd (prefix_incr it))) = it
  /\ snd (prefix_incr (snd (prefix_decr it))) = it
  /\ snd (plus_assign (- k) (snd (plus_assign k it))) = it
  /\ curVariable_ (snd (prefix_decr (begin_ (config_ it)))) = SIZE_MOD - 1
  /\ deref mem (snd (prefix_decr (begin_ (config_ it))))
     = Err (assertion_failed "variable < varStarts_.size()-1")
  /\ deref mem (end_ mem (config_ it))
     = Err (assertion_failed "variable < varStarts_.size()-1").
Proof.
  intros Hi. destruct it as [a i]. cbn [curVariable_ config_] in *.
  unfold prefix_decr, prefix_incr, plus_assign. cbn [snd config_ curVariable_].
  assert (Hback : forall x y : Z, wrap (wrap (i + x) + y) = wrap (i + (x + y))).
  { intros x y. unfold wrap. rewrite Zplus_mod_idemp_l. f_equal. lia. }
  repeat split.
  - f_equal. change (wrap (i + 1) - 1) with (wrap (i + 1) + - 1).
    rewrite Hback. replace (i + (1 + - 1)) with i by lia. apply wrap_small, Hi.
  - f_equal. change (wrap (i - 1) + 1) with (wrap (i + - 1) + 1).
    rewrite Hback. replace (i + (- 1 + 1)) with i by lia. apply wrap_small, Hi.
  - f_equal. rewrite !wrap_add_wrap_r, Hback.
    replace (i + (k + - k)) with i by lia. apply wrap_small, Hi.
  - unfold deref. cbn [config_ curVariable_]. apply operator_index_past_end.
    pose proof (wrap_in_size_t (Z.of_nat (length (varStarts_ (mem a))) - 1)) as Hs.
    change (size (mem a) <= SIZE_MOD - 1).
    unfold size, in_size_t in *. lia.
  - unfold deref, end_. cbn [config_ curVariable_]. apply operator_index_past_end.
    unfold size. lia.
Qed.

(** The witness: the iterator on block 1 of a container at address 0. *)
Lemma iterator_round_trip_witness :
  snd (prefix_decr (snd (prefix_incr {| config_ := 0%nat; curVariable_ := 1 |})))
  = {| config_ := 0%nat; curVariable_ := 1 |}
  /\ snd (plus_assign (- 3) (snd (plus_assign 3 {| config_ := 0%nat; curVariable_ := 1 |})))
     = {| config_ := 0%nat; curVariable_ := 1 |}.
Proof.
  destruct (iterator_round_trip (fun _ => sample_23)
              {| config_ := 0%nat; curVariable_ := 1 |} 3) as (H1 & _ & H3 & _).
  - split; vm_compute; [discriminate | reflexivity].
  - split; [exact H1 | exact H3].
Defined.

End IteratorMore.
Section UniformBlocks.

(** X14. [VectorValues(n, d)], when [n * d] is a [size_t], has [n] blocks
    over exactly [n * d] entries, and block [j] is the range of [d]
    entries that starts at [j * d]. *)
Theorem VectorValues_uniform_blocks (uninit : garbage) (n : Index) (d : size_t) :
  0 <= n -> 0 <= d -> n + 1 < SIZE_MOD -> n * d < SIZE_MOD ->
  let v := VectorValues_uniform uninit n d in
  size v = n
  /\ dim v = n * d
  /\ dimCapacity v = n * d
  /\ forall j : Index, 0 <= j < n ->
       operator_index v j = Ok {| start_ := j * d; size_ := d |}.
Proof.
  intros Hn Hd Hlen Hsum. cbv zeta.
  pose proof (valid_dims_replicate n d Hn Hd Hlen Hsum) as HD.
  pose proof (VectorValues_dims_varStarts uninit _ HD) as Hs.
  rewrite <- (varStarts_uniform_dims uninit uninit n d Hn Hlen) in Hs.
  assert (Hdim : dim (VectorValues_uniform uninit n d) = n * d).
  { unfold dim. rewrite Hs, back_running_sum, total_replicate. lia. }
  assert (Hcap : dimCapacity (VectorValues_uniform uninit n d) = n * d).
  { rewrite <- Hdim. unfold dimCapacity, dim, VectorValues_uniform.
    cbn [values_ varStarts_]. apply vsize_resize_discard.
    fold (varStarts_ (VectorValues_uniform uninit n d)).
    change (0 <= dim (VectorValues_uniform uninit n d)). rewrite Hdim. nia. }
  assert (Hcount : Z.of_nat (length (varStarts_ (VectorValues_uniform uninit n d)))
                   = n + 1).
  { rewrite Hs. cbn [length]. rewrite length_running_sum, length_replicate. lia. }
  assert (Hlookup : forall j : nat, Z.of_nat j <= n ->
            varStarts_ (VectorValues_uniform uninit n d) !! j = Some (Z.of_nat j * d)).
  { intros j Hj. rewrite Hs, running_sum_lookup by (rewrite length_replicate; lia).
    rewrite take_replicate, total_replicate. f_equal.
    rewrite Nat.min_l by lia. lia. }
  split; [|split; [|split]].
  - unfold size. rewrite Hcount, wrap_small by (unfold in_size_t; lia). lia.
  - exact Hdim.
  - exact Hcap.
  - intros j Hj. rewrite <- (Z2Nat.id j) at 1 by lia.
    rewrite (operator_index_Ok _ _ (j * d) ((j + 1) * d)).
    + f_equal. f_equal. lia.
    + lia.
    + rewrite Hlookup by lia. f_equal. lia.
    + rewrite Hlookup by lia. f_equal. lia.
    + nia.
    + rewrite Hcap. nia.
Qed.

(** The witness: three blocks of dimension two. *)
Lemma VectorValues_uniform_blocks_witness :
  operator_index (VectorValues_uniform no_garbage 3 2) 1
  = Ok {| start_ := 1 * 2; size_ := 2 |}.
Proof.
  destruct (VectorValues_uniform_blocks no_garbage 3 2
              ltac:(lia) ltac:(lia) eq_refl eq_refl) as (_ & _ & _ & H).
  apply H. split; vm_compute; [discriminate | reflexivity].
Defined.

End UniformBlocks.
Section Binary64.

(** ** Facts on binary64 arithmetic *)

Lemma SF64add_comm (s t : spec_float) : SF64add s t = SF64add t s.
Proof.
  destruct s as [a | a | | a m e], t as [b | b | | b n f];
    try reflexivity; try (destruct a, b; reflexivity).
  unfold SF64add, SFadd. cbv zeta.
  rewrite (Z.min_comm f e). f_equal. apply Z.add_comm.
Qed.

Lemma cond_Zopp_negb (b : bool) (m : Z) : cond_Zopp (negb b) m = - cond_Zopp b m.
Proof. destruct b; cbn; lia. Qed.

Lemma SF64sub_add_opp (s t : spec_float) : SF64sub s t = SF64add s (SFopp t).
Proof.
  destruct s as [a | a | | a m e], t as [b | b | | b n f];
    try reflexivity; destruct a, b; reflexivity.
Qed.

Lemma float_add_comm (x y : float) : (x + y = y + x)%float.
Proof. apply Prim2SF_inj. rewrite !add_spec. apply SF64add_comm. Qed.

Lemma float_sub_add_opp (x y : float) : (x - y = x + - y)%float.
Proof.
  apply Prim2SF_inj. rewrite sub_spec, add_spec, opp_spec. apply SF64sub_add_opp.
Qed.

Lemma float_opp_involutive (x : float) : (- - x = x)%float.
Proof.
  apply Prim2SF_inj. rewrite !opp_spec.
  destruct (Prim2SF x) as [b | b | | b m e]; cbn; rewrite ?Bool.negb_involutive;
    reflexivity.
Qed.

(** A finite float is a zero or a finite number. *)
Lemma is_finite_shape (x : float) :
  is_finite x = true ->
  match Prim2SF x with
  | S754_zero _ | S754_finite _ _ _ => True
  | _ => False
  end.
Proof.
  unfold is_finite, is_nan, is_infinity.
  rewrite !FloatAxioms.eqb_spec, abs_spec. change (Prim2SF infinity) with (S754_infinity false).
  destruct (Prim2SF x) as [b | b | | b m e]; try (intros _; exact I).
  - destruct b; cbn; discriminate.
  - cbn. discriminate.
Qed.

Lemma float_add_opp_diag (x : float) :
  is_finite x = true -> (x + - x = 0)%float.
Proof.
  intros Hx. apply is_finite_shape in Hx. apply Prim2SF_inj.
  rewrite add_spec, opp_spec. change (Prim2SF 0) with (S754_zero false).
  destruct (Prim2SF x) as [b | b | | b m e]; try contradiction.
  - destruct b; reflexivity.
  - unfold SF64add, SFadd, SFopp. cbv zeta.
    rewrite Z.min_id, cond_Zopp_negb, Z.add_opp_diag_r. reflexivity.
Qed.

Lemma float_sub_diag (x : float) : is_finite x = true -> (x - x = 0)%float.
Proof. intros Hx. rewrite float_sub_add_opp. apply float_add_opp_diag, Hx. Qed.

End Binary64.
Section Point2Group.

(** X15. [operator==] of [Point2] compares the [x] coordinates and then
    [q.y_] with itself: its result does not depend on the [y] coordinate
    of the left operand, it is true exactly when the [x] coordinates are
    equal and [q.y_] is not a NaN, and a point equals itself exactly when
    none of its coordinates is a NaN. *)
Theorem Point2_operator_eq_spec (p q : Point2) :
  Point2.operator_eq p q = ((x_ p =? x_ q)%float && negb (is_nan (y_ q)))
  /\ (forall b : float,
        Point2.operator_eq (Point2.Point2_xy (x_ p) b) q = Point2.operator_eq p q)
  /\ (Point2.operator_eq p p = true <->
        is_nan (x_ p) = false /\ is_nan (y_ p) = false).
Proof.
  unfold Point2.operator_eq, is_nan. cbn [x_ y_ Point2.Point2_xy].
  rewrite !Bool.negb_involutive.
  split; [reflexivity|]. split; [intros b; reflexivity|]. split.
  - intros Hpp. apply andb_prop in Hpp. destruct Hpp as [-> ->]. split; reflexivity.
  - intros [Hx Hy]. apply Bool.negb_false_iff in Hx, Hy. rewrite Hx, Hy. reflexivity.
Qed.

(** Points that differ in [y] and compare equal. *)
Example Point2_operator_eq_differing_y :
  Point2.operator_eq (Point2.Point2_xy 1 2) (Point2.Point2_xy 1 3) = true.
Proof. reflexivity. Qed.

(** X16. [inverse] is the unary minus and undoes itself; and, as its
    comment promises, [compose(p, inverse(p))] is [Point2()] for every
    point with finite coordinates. *)
Theorem Point2_inverse_spec (p : Point2) :
  Point2.inverse p = Point2.operator_neg p
  /\ Point2.inverse (Point2.inverse p) = p
  /\ (finite_point p ->
        fst (fst (Point2.compose p (Point2.inverse p) None None)) = Point2.identity).
Proof.
  destruct p as [a b]. unfold finite_point. cbn [x_ y_].
  split; [reflexivity|]. split.
  - unfold Point2.inverse, Point2.Point2_xy. cbn [x_ y_].
    rewrite !float_opp_involutive. reflexivity.
  - intros [Ha Hb]. cbn.
    unfold Point2.operator_plus, Point2.inverse, Point2.Point2_xy. cbn [x_ y_].
    rewrite (float_add_opp_diag a Ha), (float_add_opp_diag b Hb). reflexivity.
Qed.

(** The witness: [sample_point]. *)
Lemma Point2_inverse_spec_witness :
  fst (fst (Point2.compose sample_point (Point2.inverse sample_point) None None))
  = Point2.identity.
Proof.
  apply (Point2_inverse_spec sample_point). split; reflexivity.
Defined.

(** With an infinite coordinate the composition with the inverse is not
    the identity: the coordinate becomes a NaN. *)
Example Point2_inverse_of_infinity :
  fst (fst (Point2.compose (Point2.Point2_xy infinity 0)
              (Point2.inverse (Point2.Point2_xy infinity 0)) None None))
  = Point2.Point2_xy nan 0.
Proof. reflexivity. Qed.

(** X17. [compose] returns the same point in both orders of its
    operands, the point [operator+] returns; each optional output that is
    supplied holds [eye(2)] afterwards and one that is not supplied stays
    absent. *)
Theorem Point2_compose_spec (p q : Point2) (H1 H2 : option (list (list float))) :
  fst (fst (Point2.compose p q H1 H2)) = fst (fst (Point2.compose q p H1 H2))
  /\ fst (fst (Point2.compose p q H1 H2)) = Point2.operator_plus p q
  /\ (is_Some H1 -> snd (fst (Point2.compose p q H1 H2)) = Some (eye 2))
  /\ (is_Some H2 -> snd (Point2.compose p q H1 H2) = Some (eye 2))
  /\ (H1 = None -> snd (fst (Point2.compose p q H1 H2)) = None)
  /\ (H2 = None -> snd (Point2.compose p q H1 H2) = None).
Proof.
  unfold Point2.compose. cbn [fst snd]. repeat split.
  - unfold Point2.operator_plus, Point2.Point2_xy.
    rewrite (float_add_comm (x_ p)), (float_add_comm (y_ p)). reflexivity.
  - intros [m ->]. reflexivity.
  - intros [m ->]. reflexivity.
  - intros ->. reflexivity.
  - intros ->. reflexivity.
Qed.

(** X18. [between(p, q)] is [compose(inverse(p), q)], the point
    [q - p]; supplied outputs hold [-eye(2)] and [eye(2)]; and for a point
    with finite coordinates [between(p, p)] is the identity and
    [p.localCoordinates(p)] is the zero vector. *)
Theorem Point2_between_spec (p q : Point2) :
  fst (fst (Point2.between p q None None))
  = fst (fst (Point2.compose (Point2.inverse p) q None None))
  /\ (forall m1 m2 : list (list float),
        Point2.between p q (Some m1) (Some m2)
        = (Point2.operator_minus q p, Some (Matrix_opp (eye 2)), Some (eye 2)))
  /\ (finite_point p ->
        fst (fst (Point2.between p p None None)) = Point2.identity
        /\ Point2.localCoordinates p p = [0; 0]%float).
Proof.
  destruct p as [a b], q as [c d]. unfold finite_point. cbn [x_ y_].
  split; [|split].
  - cbn. unfold Point2.operator_minus, Point2.operator_plus, Point2.inverse,
      Point2.Point2_xy. cbn [x_ y_].
    rewrite !float_sub_add_opp, (float_add_comm c), (float_add_comm d). reflexivity.
  - intros m1 m2. reflexivity.
  - intros [Ha Hb].
    assert (Hid : fst (fst (Point2.between {| x_ := a; y_ := b |}
                              {| x_ := a; y_ := b |} None None)) = Point2.identity).
    { cbn. unfold Point2.operator_minus, Point2.Point2_xy. cbn [x_ y_].
      rewrite (float_sub_diag a Ha), (float_sub_diag b Hb). reflexivity. }
    split; [exact Hid|]. unfold Point2.localCoordinates. rewrite Hid. reflexivity.
Qed.

(** The witness: [sample_point]. *)
Lemma Point2_between_spec_witness :
  fst (fst (Point2.between sample_point sample_point None None)) = Point2.identity
  /\ Point2.localCoordinates sample_point sample_point = [0; 0]%float.
Proof.
  apply (Point2_between_spec sample_point sample_point). split; reflexivity.
Defined.

End Point2Group.
Section Point2Blocks.

(** X19. [Logmap] and [Expmap] convert a point to its flat block of
    [Dim()] numbers and back: [Expmap(Logmap(p))] is [p], every vector of
    two entries is the [Logmap] of its [Expmap], and [vector()] is
    [Logmap].  [Expmap] refuses every other vector, a shorter one on the
    index check and a longer one on the assertion of the constructor.
    [retract(p, Logmap(d))] is [p + d]. *)
Theorem Point2_Expmap_Logmap :
  (forall p : Point2,
     Point2.Expmap (Point2.Logmap p) = Ok p
     /\ Point2.vector p = Point2.Logmap p
     /\ vsize (Point2.Logmap p) = Point2.Dim)
  /\ (forall v : list float, vsize v = 2 ->
        exists p : Point2, Point2.Expmap v = Ok p /\ Point2.Logmap p = v)
  /\ (forall v : list float, vsize v < 2 -> Point2.Expmap v = Err bad_index)
  /\ (forall v : list float, 2 < vsize v ->
        Point2.Expmap v = Err (assertion_failed "v.size() == 2"))
  /\ (forall p d : Point2,
        Point2.retract p (Point2.Logmap d) = Ok (Point2.operator_plus p d)).
Proof.
  split; [|split; [|split; [|split]]].
  - intros [a b]. repeat split.
  - intros v Hv. destruct v as [|a [|b [|c v]]]; try discriminate Hv.
    + exists {| x_ := a; y_ := b |}. split; reflexivity.
    + unfold vsize in Hv. cbn [length] in Hv. lia.
  - intros v Hv. destruct v as [|a [|b v]]; try reflexivity.
    unfold vsize in Hv. cbn [length] in Hv. lia.
  - intros v Hv. destruct v as [|a [|b [|c v]]];
      try (unfold vsize in Hv; cbn [length] in Hv; lia).
    unfold Point2.Expmap, Point2.Point2_Vector. cbn [Vector_at lookup rbind].
    unfold Vector_at. cbn.
    destruct (Z.eqb_spec (vsize (a :: b :: c :: v)) 2) as [E|]; [lia | reflexivity].
  - intros p [a b]. reflexivity.
Qed.

(** ** A point as a block of a container *)

Lemma block_pushed (v : VectorValues) (b : list float) :
  Inv v -> representable v -> dim v + vsize b <= dimCapacity v ->
  block {| values_ := take (Z.to_nat (dim v)) (values_ v) ++ b
                      ++ drop (Z.to_nat (dim v + vsize b)) (values_ v);
           varStarts_ := varStarts_ v ++ [dim v + vsize b] |} (size v)
  = Ok b.
Proof.
  intros HInv [Hcount Hcap] Hroom.
  pose proof (Inv_dim_nonneg v HInv) as Hdim.
  pose proof (Inv_dim v HInv) as Hfit.
  pose proof (Inv_length_pos v HInv) as Hpos.
  pose proof (vsize_nonneg b) as Hk.
  set (v' := {| values_ := _; varStarts_ := _ |}).
  assert (Hcap' : dimCapacity v' = dimCapacity v).
  { unfold dimCapacity at 1. unfold v'. cbn [values_].
    apply vsize_overwrite; [lia | exact Hroom]. }
  unfold block. rewrite (size_exact v HInv Hcount).
  replace (Z.of_nat (length (varStarts_ v)) - 1)
    with (Z.of_nat (length (varStarts_ v) - 1)) by lia.
  rewrite (operator_index_Ok v' _ (dim v) (dim v + vsize b)).
  - cbn [rbind]. f_equal.
    replace (dim v + vsize b - dim v) with (vsize b) by lia.
    unfold v'. cbn [values_].
    apply range_read_overwrite; unfold dimCapacity in *; lia.
  - unfold v'. cbn [varStarts_]. rewrite length_app. cbn [length]. lia.
  - unfold v'. cbn [varStarts_]. rewrite lookup_app_l by lia.
    apply back_lookup, Inv_nonempty, HInv.
  - unfold v'. cbn [varStarts_].
    replace (S (length (varStarts_ v) - 1)) with (length (varStarts_ v)) by lia.
    rewrite lookup_app_r by lia. rewrite Nat.sub_diag. reflexivity.
  - lia.
  - rewrite Hcap'. exact Hroom.
Qed.

(** X20. A point stored as a block comes back.  With room for
    [Point2::Dim()] more entries, appending [p.vector()] to a container
    succeeds, [dim()] grows by [p.dim()], and [Expmap] of the new block
    is [p]. *)
Theorem Point2_stored_as_block (v : VectorValues) (p : Point2) :
  Inv v -> representable v -> dim v + Point2.Dim <= dimCapacity v ->
  exists v' : VectorValues,
    push_back_preallocated (Point2.vector p) v = (Ok (size v), v')
    /\ dim v' = dim v + Point2.dim p
    /\ rbind (block v' (size v)) Point2.Expmap = Ok p.
Proof.
  intros HInv Hrep Hroom.
  assert (Hsz : vsize (Point2.vector p) = Point2.Dim) by reflexivity.
  rewrite <- Hsz in Hroom.
  eexists. split; [|split].
  - apply push_back_preallocated_Ok; (exact HInv || apply Hrep || exact Hroom).
  - unfold dim at 1. cbn [varStarts_]. rewrite back_snoc, Hsz. reflexivity.
  - rewrite (block_pushed v (Point2.vector p) HInv Hrep Hroom). cbn [rbind].
    destruct p as [a b]. reflexivity.
Qed.

(** The witness: [sample_point] appended after [reserve(3, 10)]. *)
Lemma Point2_stored_as_block_witness :
  exists v' : VectorValues,
    push_back_preallocated (Point2.vector sample_point) reserved_3_10
    = (Ok (size reserved_3_10), v')
    /\ dim v' = dim reserved_3_10 + Point2.dim sample_point
    /\ rbind (block v' (size reserved_3_10)) Point2.Expmap = Ok sample_point.
Proof.
  apply (Point2_stored_as_block reserved_3_10 sample_point).
  - split; [reflexivity | exact I | vm_compute; discriminate].
  - split; reflexivity.
  - vm_compute. discriminate.
Defined.

End Point2Blocks.
End gtsam.
